(** * Mine4Orpheus: the underground simulation engine

    A shallow embedding of [Mine4Orpheus.py]: procedural terrain
    generation, the tile-durability mining loop, the particle pool and the
    smoothed camera, followed by the properties the specification states
    about them.

    Modelling conventions.
    - Python integers are [Z]; Python floats ([camera_y], the ore weights,
      the particle coordinates and velocities) are exact rationals [Q]:
      the arithmetic the source writes down, without IEEE rounding. The
      theorems about them state bounds, orderings and invariants with
      room to spare, which the rounded arithmetic keeps as well; the
      lemmas that lead there use the exact arithmetic freely. Where a
      property depends on the rounding itself (how close the camera comes
      to its target), the line is embedded a second time over binary64,
      with the kernel's primitive floats.
    - Python dictionaries are stdpp [gmap]s; [d.get(k, v)] is
      [default v (d !! k)], [k in d] is [is_Some (d !! k)], and
      [d[k]] on a missing key raises [KeyError], which the embedding makes
      explicit in the [result] type.
    - [random.random()] is a fixed but arbitrary stream [rand : nat -> Q]
      together with a cursor that every draw advances. *)

From Stdlib Require Import PrimFloat.
From Stdlib Require Import ZArith QArith Qabs Qround Lqa Lia List Bool Ascii.
From stdpp Require Import base option list gmap strings.

Local Open Scope Z_scope.

(** ** Configuration and constants *)

Definition WIDTH : Z := 640.
Definition HEIGHT : Z := 480.
Definition TILE_SIZE : Z := 32.
Definition FPS : Z := 60.
Definition COLS : Z := WIDTH / TILE_SIZE.
Definition ROWS : Z := HEIGHT / TILE_SIZE.

(** Tile IDs: [EMPTY, DIRT, ROCK, BRONZE, SILVER, GOLD, DIAMOND = 0 .. 6]. *)
Inductive TileKind : Set :=
  | EMPTY | DIRT | ROCK | BRONZE | SILVER | GOLD | DIAMOND.

Definition tile_id (k : TileKind) : Z :=
  match k with
  | EMPTY => 0 | DIRT => 1 | ROCK => 2 | BRONZE => 3
  | SILVER => 4 | GOLD => 5 | DIAMOND => 6
  end.

Definition tile_of_id (z : Z) : option TileKind :=
  match z with
  | 0 => Some EMPTY | 1 => Some DIRT | 2 => Some ROCK | 3 => Some BRONZE
  | 4 => Some SILVER | 5 => Some GOLD | 6 => Some DIAMOND
  | _ => None
  end.

#[global] Instance TileKind_eq_dec : EqDecision TileKind.
Proof. solve_decision. Defined.

#[global] Instance TileKind_countable : Countable TileKind.
Proof. refine (inj_countable tile_id tile_of_id _). by intros []. Defined.

Definition Color : Set := (Z * Z * Z)%type.

Definition TILE_COLORS (k : TileKind) : Color :=
  match k with
  | EMPTY => (20, 15, 10) | DIRT => (139, 69, 19) | ROCK => (80, 80, 80)
  | BRONZE => (205, 127, 50) | SILVER => (192, 192, 192)
  | GOLD => (255, 215, 0) | DIAMOND => (180, 250, 255)
  end.

(** [DURABILITY] has no entry for [EMPTY]. *)
Definition DURABILITY (k : TileKind) : option Z :=
  match k with
  | EMPTY => None
  | DIRT => Some 1 | ROCK => Some 9999 | BRONZE => Some 3
  | SILVER => Some 5 | GOLD => Some 8 | DIAMOND => Some 12
  end.

(** [DURABILITY.get(tile_id, 1)] *)
Definition DURABILITY_get (k : TileKind) : Z := default 1 (DURABILITY k).

Record OreParams : Set := { base : Q; scale : Q }.

Inductive OreName : Set := N_ROCK | N_BRONZE | N_SILVER | N_GOLD | N_DIAMOND.

Definition ORE_CONFIG (n : OreName) : OreParams :=
  match n with
  | N_ROCK => {| base := 10; scale := 5 # 100 |}
  | N_BRONZE => {| base := 15; scale := - (1 # 10) |}
  | N_SILVER => {| base := 8; scale := - (5 # 100) |}
  | N_GOLD => {| base := 3; scale := 15 # 100 |}
  | N_DIAMOND => {| base := 1; scale := 1 # 10 |}
  end.

(** ** Numeric helpers *)

(** Python's two-argument [max]: the second argument wins only when it is
    strictly greater. *)
Definition py_max (a b : Q) : Q := if Qlt_le_dec a b then b else a.

Definition py_maxZ (a b : Z) : Z := if Z_lt_dec a b then b else a.

(** ** Row weights (lines 206-214 of [Terrain.generate_row]) *)

Definition choices : list TileKind := [DIRT; ROCK; BRONZE; SILVER; GOLD; DIAMOND].

Definition base_weights : list Q := [71; 10; 8; 4; 1; 1]%Q.

Definition scaled_depth (y_depth : Z) : Z := py_maxZ 0 (y_depth - 20).

Definition linear (n : OreName) (sd : Z) : Q :=
  (base (ORE_CONFIG n) + inject_Z sd * scale (ORE_CONFIG n))%Q.

Definition sumQ (l : list Q) : Q := fold_left Qplus l 0%Q.

Definition row_weights (y_depth : Z) : list Q :=
  let sd := scaled_depth y_depth in
  if Z_lt_dec 0 sd then
    let w1 := py_max 5 (linear N_ROCK sd) in
    let w2 := py_max 1 (linear N_BRONZE sd) in
    let w3 := py_max 1 (linear N_SILVER sd) in
    let w4 := linear N_GOLD sd in
    let w5 := linear N_DIAMOND sd in
    let w0 := py_max 10 (100 - sumQ [w1; w2; w3; w4; w5])%Q in
    [w0; w1; w2; w3; w4; w5]
  else base_weights.

(** The weight a row gives to a tile kind ([EMPTY] is never sampled). *)
Definition weight_of (k : TileKind) (ws : list Q) : Q :=
  match k with
  | EMPTY => 0%Q
  | DIRT => nth 0 ws 0%Q | ROCK => nth 1 ws 0%Q | BRONZE => nth 2 ws 0%Q
  | SILVER => nth 3 ws 0%Q | GOLD => nth 4 ws 0%Q | DIAMOND => nth 5 ws 0%Q
  end.

(** ** Dig cooldown (line 452) *)

Definition dig_cooldown (shovel_level : Z) : Z :=
  py_maxZ 50 (250 - shovel_level * 20).

(** ** Errors

    The only exception the underground pipeline can raise is the
    [KeyError] of a subscript on a missing dictionary key. *)

Inductive result (A : Type) : Type :=
  | Ok (a : A)
  | KeyError.
Arguments Ok {A} a.
Arguments KeyError {A}.

#[global] Instance result_ret : MRet result := fun A a => Ok a.

#[global] Instance result_bind : MBind result := fun A B f r =>
  match r with
  | Ok a => f a
  | KeyError => KeyError
  end.

Definition is_ok {A : Type} (r : result A) : bool :=
  match r with
  | Ok _ => true
  | KeyError => false
  end.

(** [d[key]] *)
Definition getitem {K V : Type} `{Countable K} (d : gmap K V) (key : K) : result V :=
  match d !! key with
  | Some v => Ok v
  | None => KeyError
  end.

(** ** Shared data: [GameSession] *)

Record GameSession : Type := {
  inventory : gmap TileKind Z;
  money : Z;
  shovel_level : Z;
  has_torch : bool
}.

Definition GameSession_init : GameSession :=
  {| inventory := <[BRONZE := 0]> (<[SILVER := 0]> (<[GOLD := 0]> (<[DIAMOND := 0]> ∅)));
     money := 0;
     shovel_level := 1;
     has_torch := false |}.

Definition set_inventory (s : GameSession) (inv : gmap TileKind Z) : GameSession :=
  {| inventory := inv; money := money s;
     shovel_level := shovel_level s; has_torch := has_torch s |}.

(** Line 444: [if kind in session.inventory: session.inventory[kind] += 1]. *)
Definition credit_ore (s : GameSession) (k : TileKind) : GameSession :=
  match inventory s !! k with
  | Some n => set_inventory s (<[k := n + 1]> (inventory s))
  | None => s
  end.

(** The shop (lines 406-416); [prices] is only ever read at the keys of
    the inventory. *)
Definition prices (k : TileKind) : Z :=
  match k with
  | BRONZE => 10 | SILVER => 25 | GOLD => 100 | DIAMOND => 500
  | _ => 0
  end.

Definition sell_all (s : GameSession) : GameSession :=
  let earned := map_fold (fun ore n acc => acc + n * prices ore) 0 (inventory s) in
  {| inventory := (fun _ => 0) <$> inventory s;
     money := money s + earned;
     shovel_level := shovel_level s;
     has_torch := has_torch s |}.

Definition buy_shovel (s : GameSession) : GameSession :=
  let cost := 100 * shovel_level s in
  if Z_le_dec cost (money s) then
    {| inventory := inventory s; money := money s - cost;
       shovel_level := shovel_level s + 1; has_torch := has_torch s |}
  else s.

Definition take_torch (s : GameSession) : GameSession :=
  {| inventory := inventory s; money := money s;
     shovel_level := shovel_level s; has_torch := true |}.

(** ** The actor: [GridMole] *)

Inductive MoleState : Set := IDLE | MINING | CRAWLING.

Record GridMole : Set := {
  grid_x : Z;
  grid_y : Z;
  can_move_timer : Z;
  state : MoleState;
  facing_right : bool;
  frame : Z;
  anim_timer : Z
}.

Definition GridMole_init (start_x start_y : Z) : GridMole :=
  {| grid_x := start_x; grid_y := start_y; can_move_timer := 0;
     state := IDLE; facing_right := true; frame := 0; anim_timer := 0 |}.

Definition set_timer (m : GridMole) (t : Z) : GridMole :=
  {| grid_x := grid_x m; grid_y := grid_y m; can_move_timer := t;
     state := state m; facing_right := facing_right m;
     frame := frame m; anim_timer := anim_timer m |}.

Definition set_state (m : GridMole) (s : MoleState) : GridMole :=
  {| grid_x := grid_x m; grid_y := grid_y m; can_move_timer := can_move_timer m;
     state := s; facing_right := facing_right m;
     frame := frame m; anim_timer := anim_timer m |}.

Definition set_facing (m : GridMole) (b : bool) : GridMole :=
  {| grid_x := grid_x m; grid_y := grid_y m; can_move_timer := can_move_timer m;
     state := state m; facing_right := b;
     frame := frame m; anim_timer := anim_timer m |}.

(** [state = 'CRAWLING' if dy < 0 or dx != 0 else 'IDLE'] *)
Definition moved_state (dx dy : Z) : MoleState :=
  if Z_lt_dec dy 0 then CRAWLING
  else if Z.eq_dec dx 0 then IDLE else CRAWLING.

(** The three assignments that follow a step into [(tx, ty)]
    (lines 437-439 and 448-450). *)
Definition step_into (m : GridMole) (tx ty dx dy : Z) : GridMole :=
  {| grid_x := tx; grid_y := ty; can_move_timer := 150;
     state := moved_state dx dy; facing_right := facing_right m;
     frame := frame m; anim_timer := anim_timer m |}.

(** Number of sprites [_generate_sprites] builds for each state. *)
Definition anim_len (s : MoleState) : Z :=
  match s with IDLE => 1 | MINING => 2 | CRAWLING => 2 end.

Definition process_animation (m : GridMole) (dt : Z) : GridMole :=
  let timer := anim_timer m + dt in
  let frame_duration := match state m with IDLE => 300 | _ => 80 end in
  if Z_lt_dec frame_duration timer then
    {| grid_x := grid_x m; grid_y := grid_y m; can_move_timer := can_move_timer m;
       state := state m; facing_right := facing_right m;
       frame := (frame m + 1) mod anim_len (state m); anim_timer := 0 |}
  else
    {| grid_x := grid_x m; grid_y := grid_y m; can_move_timer := can_move_timer m;
       state := state m; facing_right := facing_right m;
       frame := frame m; anim_timer := timer |}.

(** ** Particles *)

Record Particle : Set := {
  active : bool;
  x : Q;
  y : Q;
  vx : Q;
  vy : Q;
  color : Color;
  life : Z
}.

Definition Particle_init : Particle :=
  {| active := false; x := 0; y := 0; vx := 0; vy := 0;
     color := (255, 255, 255); life := 0 |}.

(** [ParticlePool(size=256)] *)
Definition ParticlePool_init (size : nat) : list Particle :=
  replicate size Particle_init.

Definition POOL_SIZE : nat := 256.

(** [random.uniform(a, b)] is [a + (b - a) * random()]. *)
Definition uniform (a b u : Q) : Q := (a + (b - a) * u)%Q.

(** The state change of [ParticlePool.update_and_draw] on one slot. *)
Definition update_particle (p : Particle) : Particle :=
  if active p then
    let vy' := (vy p + (3 # 10))%Q in
    let x' := (x p + vx p)%Q in
    let y' := (y p + vy')%Q in
    let life' := life p - 8 in
    {| active := if Z_le_dec life' 0 then false else true;
       x := x'; y := y'; vx := vx p; vy := vy'; color := color p; life := life' |}
  else p.

Definition update_and_draw (pool : list Particle) : list Particle :=
  map update_particle pool.

Definition count_active (pool : list Particle) : nat :=
  length (List.filter active pool).

Definition count_free (pool : list Particle) : nat :=
  length (List.filter (fun p => negb (active p)) pool).

(** ** Terrain cells *)

(** The two-element list [[tile_id, hp]] stored per coordinate. *)
Record TileCell : Set := { kind : TileKind; durability : Z }.

Record Terrain : Type := {
  grid : gmap (Z * Z) TileCell;
  highest_y_generated : Z
}.

Definition Terrain_init : Terrain := {| grid := ∅; highest_y_generated := -1 |}.

(** The fallback of [grid.get((x, y), [DIRT, 1])]. *)
Definition default_cell : TileCell := {| kind := DIRT; durability := 1 |}.

Definition grid_get (g : gmap (Z * Z) TileCell) (cx cy : Z) : TileCell :=
  default default_cell (g !! (cx, cy)).

(** The cells [Terrain.draw] reads for a camera offset (lines 227-233);
    what it paints from them is not part of the model. *)
Definition draw_tiles (g : gmap (Z * Z) TileCell) (cam : Q) : list (Z * Z * TileCell) :=
  let start_row := Qfloor (cam / inject_Z TILE_SIZE) in
  let first_row := py_maxZ 0 start_row in
  cy ← seqZ first_row (start_row + ROWS + 2 - first_row);
  cx ← seqZ 0 COLS;
  [(cx, cy, grid_get g cx cy)].

(** ** [random.choices(population, weights, k=1)[0]]

    The library accumulates the weights, scales one [random()] draw by
    their total and bisects the cumulative list with [hi = n - 1]; on a
    non-decreasing list that is the first position whose cumulative
    weight exceeds the draw. *)

Fixpoint accumulate_from (acc : Q) (ws : list Q) : list Q :=
  match ws with
  | [] => []
  | w :: ws' => (acc + w)%Q :: accumulate_from (acc + w)%Q ws'
  end.

Definition accumulate (ws : list Q) : list Q :=
  match ws with
  | [] => []
  | w :: ws' => w :: accumulate_from w ws'
  end.

Fixpoint bisect (a : list Q) (v : Q) (hi : nat) : nat :=
  match hi, a with
  | S hi', e :: a' => if Qlt_le_dec v e then O else S (bisect a' v hi')
  | _, _ => O
  end.

Definition random_choice (population : list TileKind) (weights : list Q) (u : Q) : TileKind :=
  let cum_weights := accumulate weights in
  let total := List.last cum_weights 0%Q in
  nth (bisect cum_weights (u * total)%Q (length population - 1)) population DIRT.

(** ** The world the underground pipeline mutates *)

Record Keys : Set := {
  K_LEFT : bool; K_a : bool;
  K_RIGHT : bool; K_d : bool;
  K_DOWN : bool; K_s : bool;
  K_UP : bool; K_w : bool
}.

Record World : Type := {
  terrain : Terrain;
  ug_mole : GridMole;
  particle_pool : list Particle;
  camera_y : Q;
  session : GameSession;
  rng_pos : nat
}.

Definition set_mole (w : World) (m : GridMole) : World :=
  {| terrain := terrain w; ug_mole := m; particle_pool := particle_pool w;
     camera_y := camera_y w; session := session w; rng_pos := rng_pos w |}.

Definition set_session (w : World) (s : GameSession) : World :=
  {| terrain := terrain w; ug_mole := ug_mole w; particle_pool := particle_pool w;
     camera_y := camera_y w; session := s; rng_pos := rng_pos w |}.

Definition set_grid (t : Terrain) (g : gmap (Z * Z) TileCell) : Terrain :=
  {| grid := g; highest_y_generated := highest_y_generated t |}.

(** ** Camera (line 462) *)

Definition camera_target (depth : Z) : Q :=
  py_max 0 (inject_Z (depth * TILE_SIZE - HEIGHT / 3)).

Definition camera_follow (target cam : Q) : Q :=
  (cam + (target - cam) * (1 # 10))%Q.

(** [int((camera_y + HEIGHT) // TILE_SIZE) + 10] *)
Definition lookahead_row (cam : Q) : Z :=
  Qfloor ((cam + inject_Z HEIGHT) / inject_Z TILE_SIZE) + 10.

(** The state change of the underground rendering pipeline (line 572). *)
Definition render_particles (w : World) : World :=
  {| terrain := terrain w; ug_mole := ug_mole w;
     particle_pool := update_and_draw (particle_pool w);
     camera_y := camera_y w; session := session w; rng_pos := rng_pos w |}.

Section RandomStream.

(** The successive results of [random.random()]. *)
Variable rand : nat -> Q.

(** *** [ParticlePool.emit] *)

Definition spawn (px py : Q) (c : Color) (cur : nat) : Particle :=
  {| active := true; x := px; y := py;
     vx := uniform (-3) 3 (rand cur);
     vy := uniform (-5) (-1) (rand (S cur));
     color := c; life := 255 |}.

(** The [for p in self.pool] loop, with [emitted] so far. *)
Fixpoint emit_loop (pool : list Particle) (px py : Q) (c : Color)
    (count emitted : Z) (cur : nat) : list Particle * nat :=
  match pool with
  | [] => ([], cur)
  | p :: rest =>
      if active p then
        let '(rest', cur') := emit_loop rest px py c count emitted cur in
        (p :: rest', cur')
      else
        let p' := spawn px py c cur in
        let emitted' := emitted + 1 in
        if Z_le_dec count emitted' then (p' :: rest, (cur + 2)%nat)
        else
          let '(rest', cur') := emit_loop rest px py c count emitted' (cur + 2)%nat in
          (p' :: rest', cur')
  end.

Definition emit (pool : list Particle) (px py : Q) (c : Color) (count : Z)
    (cur : nat) : list Particle * nat :=
  emit_loop pool px py c count 0 cur.

(** *** [Terrain.generate_row] and [Terrain.ensure_generated] *)

Definition columns : list Z := seqZ 0 COLS.

Definition fill_dirt (g : gmap (Z * Z) TileCell) (y_depth : Z) : gmap (Z * Z) TileCell :=
  foldl (fun g cx => <[(cx, y_depth) := {| kind := DIRT; durability := DURABILITY_get DIRT |}]> g)
        g columns.

Definition sample_cell (weights : list Q) (cur : nat) : TileCell :=
  let tile := random_choice choices weights (rand cur) in
  {| kind := tile; durability := DURABILITY_get tile |}.

Definition sample_row (g : gmap (Z * Z) TileCell) (y_depth : Z) (weights : list Q)
    (cur : nat) : gmap (Z * Z) TileCell * nat :=
  foldl (fun '(g, cur) cx => (<[(cx, y_depth) := sample_cell weights cur]> g, S cur))
        (g, cur) columns.

Definition generate_row (t : Terrain) (y_depth : Z) (cur : nat) : Terrain * nat :=
  if decide (is_Some (grid t !! (0, y_depth))) then (t, cur)
  else if Z_lt_dec y_depth 10 then (set_grid t (fill_dirt (grid t) y_depth), cur)
  else
    let '(g, cur') := sample_row (grid t) y_depth (row_weights y_depth) cur in
    (set_grid t g, cur').

Definition ensure_generated (t : Terrain) (target_y : Z) (cur : nat) : Terrain * nat :=
  if Z_lt_dec (highest_y_generated t) target_y then
    let '(t', cur') :=
      foldl (fun '(t, cur) cy => generate_row t cy cur) (t, cur)
            (seqZ (highest_y_generated t + 1) (target_y - highest_y_generated t)) in
    ({| grid := grid t'; highest_y_generated := target_y |}, cur')
  else (t, cur).

(** *** The mining attempt (lines 432-457)

    [try_move w dx dy] is the body of [if dx != 0 or dy != 0]. The list
    bound to [tile_data] is the very list stored in the grid, so the
    kind read at lines 444 and 446 is the one the cell still has after
    the decrement of line 442 and before line 447 overwrites it. *)

Definition try_move (w : World) (dx dy : Z) : result World :=
  let m := ug_mole w in
  let tx := grid_x m + dx in
  let ty := grid_y m + dy in
  if decide (0 <= tx < COLS ∧ 0 <= ty) then
    let tile_data := grid_get (grid (terrain w)) tx ty in
    match kind tile_data with
    | EMPTY => Ok (set_mole w (step_into m tx ty dx dy))
    | ROCK => Ok (set_mole w (set_state m IDLE))
    | _ =>
        cell ← getitem (grid (terrain w)) (tx, ty);
        let hit := {| kind := kind cell; durability := durability cell - 1 |} in
        if Z_le_dec (durability hit) 0 then
          let session' := credit_ore (session w) (kind hit) in
          let '(pool', cur') :=
            emit (particle_pool w)
                 (inject_Z (tx * TILE_SIZE + 16)) (inject_Z (ty * TILE_SIZE + 16))
                 (TILE_COLORS (kind hit)) 8 (rng_pos w) in
          let gone := {| kind := EMPTY; durability := durability hit |} in
          Ok {| terrain := set_grid (terrain w) (<[(tx, ty) := gone]> (grid (terrain w)));
                ug_mole := step_into m tx ty dx dy;
                particle_pool := pool';
                camera_y := camera_y w;
                session := session';
                rng_pos := cur' |}
        else
          Ok {| terrain := set_grid (terrain w) (<[(tx, ty) := hit]> (grid (terrain w)));
                ug_mole := set_state (set_timer m (dig_cooldown (shovel_level (session w)))) MINING;
                particle_pool := particle_pool w;
                camera_y := camera_y w;
                session := session w;
                rng_pos := rng_pos w |}
    end
  else Ok (set_mole w (set_state m IDLE)).

(** *** Input handling (lines 420-430) *)

Definition read_direction (m : GridMole) (keys : Keys) : Z * Z * GridMole :=
  if Z_le_dec (can_move_timer m) 0 then
    if K_LEFT keys || K_a keys then (-1, 0, set_facing m false)
    else if K_RIGHT keys || K_d keys then (1, 0, set_facing m true)
    else if K_DOWN keys || K_s keys then (0, 1, m)
    else if K_UP keys || K_w keys then (0, -1, m)
    else (0, 0, m)
  else (0, 0, m).

(** Lines 420-459. *)
Definition underground_input (w : World) (keys : Keys) (dt : Z) : result World :=
  let m := set_timer (ug_mole w) (can_move_timer (ug_mole w) - dt) in
  let '(dx, dy, m) := read_direction m keys in
  let w := set_mole w m in
  if decide (dx ≠ 0 ∨ dy ≠ 0) then try_move w dx dy
  else if Z_le_dec (can_move_timer m) 0 then Ok (set_mole w (set_state m IDLE))
  else Ok w.

(** Lines 461-463: animation, camera follow, generate-ahead. *)
Definition underground_follow (w : World) (dt : Z) : World :=
  let m := process_animation (ug_mole w) dt in
  let cam := camera_follow (camera_target (grid_y m)) (camera_y w) in
  let '(t, cur) := ensure_generated (terrain w) (lookahead_row cam) (rng_pos w) in
  {| terrain := t; ug_mole := m; particle_pool := particle_pool w;
     camera_y := cam; session := session w; rng_pos := cur |}.

(** The update pipeline of one frame underground (lines 420-463). *)
Definition underground_update (w : World) (keys : Keys) (dt : Z) : result World :=
  w1 ← underground_input w keys dt;
  Ok (underground_follow w1 dt).

(** One frame spent underground: the update pipeline, then the particle
    pass of the rendering pipeline (line 572). *)
Definition underground_frame (w : World) (keys : Keys) (dt : Z) : result World :=
  w2 ← underground_update w keys dt;
  Ok (render_particles w2).

(** *** Start-up (lines 315-320) *)

(** The world after [terrain.ensure_generated(ROWS + 5)]. *)
Definition boot_world : World :=
  let '(t, cur) := ensure_generated Terrain_init (ROWS + 5) O in
  {| terrain := t; ug_mole := GridMole_init (COLS / 2) 5;
     particle_pool := ParticlePool_init POOL_SIZE;
     camera_y := 0; session := GameSession_init; rng_pos := cur |}.

(** Line 320: [terrain.grid[(ug_mole.grid_x, ug_mole.grid_y)] = [EMPTY, 0]]. *)
Definition carve_spawn (w : World) : World :=
  {| terrain :=
       set_grid (terrain w)
         (<[(grid_x (ug_mole w), grid_y (ug_mole w)) := {| kind := EMPTY; durability := 0 |}]>
            (grid (terrain w)));
     ug_mole := ug_mole w; particle_pool := particle_pool w;
     camera_y := camera_y w; session := session w; rng_pos := rng_pos w |}.

Definition init_world : World := carve_spawn boot_world.

End RandomStream.

(** The direction an input asks for once the cooldown has been charged
    the elapsed time, [(0, 0)] when none is accepted (lines 420-430), and
    the actor as those lines leave it. *)
Definition requested_move (w : World) (keys : Keys) (dt : Z) : Z * Z :=
  (read_direction (set_timer (ug_mole w) (can_move_timer (ug_mole w) - dt)) keys).1.

Definition aimed_mole (w : World) (keys : Keys) (dt : Z) : GridMole :=
  (read_direction (set_timer (ug_mole w) (can_move_timer (ug_mole w) - dt)) keys).2.

(** The cell that input aims at (line 433). *)
Definition dig_target (w : World) (keys : Keys) (dt : Z) : Z * Z :=
  (grid_x (ug_mole w) + (requested_move w keys dt).1,
   grid_y (ug_mole w) + (requested_move w keys dt).2).

(** [k] successive mining attempts in the same direction. *)
Fixpoint hits (rand : nat -> Q) (k : nat) (w : World) (dx dy : Z) : result World :=
  match k with
  | O => Ok w
  | S k' => w' ← hits rand k' w dx dy; try_move rand w' dx dy
  end.

(** [dug rand dx dy n w w']: [w'] is reached from [w] by whole frames, [n]
    of which carry an accepted input in direction [(dx, dy)], the others no
    accepted input at all. *)
Inductive dug (rand : nat -> Q) (dx dy : Z) : nat -> World -> World -> Prop :=
  | dug_done w : dug rand dx dy O w w
  | dug_wait n w keys dt w1 w2 :
      requested_move w keys dt = (0, 0) ->
      underground_frame rand w keys dt = Ok w1 ->
      dug rand dx dy n w1 w2 ->
      dug rand dx dy n w w2
  | dug_hit n w keys dt w1 w2 :
      requested_move w keys dt = (dx, dy) ->
      underground_frame rand w keys dt = Ok w1 ->
      dug rand dx dy n w1 w2 ->
      dug rand dx dy (S n) w w2.

(** The camera offset after [n] frames with an unchanged target. *)
Fixpoint camera_after (n : nat) (target cam : Q) : Q :=
  match n with
  | O => cam
  | S n' => camera_follow target (camera_after n' target cam)
  end.

(** Line 462 in the arithmetic Python runs it in: [camera_y], the
    difference, the product and the sum are binary64 values, each operation
    rounds to nearest-even, and the literal [0.1] is the double nearest to
    one tenth. The target is the double Python converts the integer
    [ug_mole.grid_y * TILE_SIZE - HEIGHT // 3] to (or [0.0]). *)
Definition camera_follow_f64 (target cam : float) : float :=
  PrimFloat.add cam (PrimFloat.mul (PrimFloat.sub target cam) 0x1.999999999999ap-4%float).

Fixpoint camera_after_f64 (n : nat) (target cam : float) : float :=
  match n with
  | O => cam
  | S n' => camera_follow_f64 target (camera_after_f64 n' target cam)
  end.

(** Where the offset is after 400 frames on the way from 0 to the target
    160 (the actor at depth 10): [159.99999999999989]. *)
Definition camera_rest_160 : float :=
  Eval vm_compute in camera_after_f64 400 160%float 0%float.

(** Members of [session.inventory]. *)
Definition is_ore (k : TileKind) : bool :=
  match k with
  | BRONZE | SILVER | GOLD | DIAMOND => true
  | _ => false
  end.

(** The count the inventory holds for a kind (0 for a kind without a slot). *)
Definition ore_count (s : GameSession) (k : TileKind) : Z :=
  default 0 (inventory s !! k).

(** ** Everything that can happen after start-up

    Frames spent underground: the ordinary ones, the one in which the
    player clicks "Return to Surface" (the update runs, the frame is then
    rendered as overworld), and those with the inventory open (the update
    is skipped, the particles are still drawn). In between, the visits to
    the surface, which only touch the session (shop, torch) and reset the
    actor's cooldown on the way back down (line 392). *)

Inductive Op : Set :=
  | OpFrame (keys : Keys) (dt : Z)
  | OpLeaveFrame (keys : Keys) (dt : Z)
  | OpInventoryFrame
  | OpSellAll
  | OpBuyShovel
  | OpTakeTorch
  | OpEnterMine.

Definition run_op (rand : nat -> Q) (o : Op) (w : World) : result World :=
  match o with
  | OpFrame keys dt => underground_frame rand w keys dt
  | OpLeaveFrame keys dt => underground_update rand w keys dt
  | OpInventoryFrame => Ok (render_particles w)
  | OpSellAll => Ok (set_session w (sell_all (session w)))
  | OpBuyShovel => Ok (set_session w (buy_shovel (session w)))
  | OpTakeTorch => Ok (set_session w (take_torch (session w)))
  | OpEnterMine => Ok (set_mole w (set_timer (ug_mole w) 300))
  end.

Inductive reachable (rand : nat -> Q) : World -> Prop :=
  | reachable_init : reachable rand (init_world rand)
  | reachable_step w o w' :
      reachable rand w -> run_op rand o w = Ok w' -> reachable rand w'.

(** The durability a cell of each kind may hold. *)
Definition cell_ok (c : TileCell) : Prop :=
  match kind c with
  | EMPTY => durability c = 0
  | k => 1 <= durability c <= DURABILITY_get k
  end.

Definition inventory_ok (s : GameSession) : Prop :=
  forall k, is_Some (inventory s !! k) <-> is_ore k = true.

Definition world_ok (w : World) : Prop :=
  map_Forall (fun _ c => cell_ok c) (grid (terrain w)) /\
  inventory_ok (session w) /\
  length (particle_pool w) = POOL_SIZE.

(** ** Predicates used in the statements *)

(** The guard of line 434. *)
Definition in_range (tx ty : Z) : Prop := 0 <= tx < COLS ∧ 0 <= ty.

(** The kinds the digging branch of line 440 accepts. *)
Definition diggable (k : TileKind) : Prop := k ≠ EMPTY ∧ k ≠ ROCK.

(** A cell as [generate_row] writes it: a sampled kind at full durability. *)
Definition generated (c : TileCell) : Prop :=
  kind c ≠ EMPTY ∧ durability c = DURABILITY_get (kind c).

(** [g'] extends [g] by generated cells only. *)
Definition gen_ext (g g' : gmap (Z * Z) TileCell) : Prop :=
  ∀ pos c, g' !! pos = Some c → g !! pos = Some c ∨ generated c.

(** What [emit] may do to one slot: leave it alone, or claim a free slot
    and initialise it. *)
Definition slot_emitted (px py : Q) (c : Color) (p p' : Particle) : Prop :=
  p' = p ∨
  (active p = false ∧ active p' = true ∧ x p' = px ∧ y p' = py ∧
   color p' = c ∧ life p' = 255 ∧
   (-3 <= vx p' <= 3)%Q ∧ (-5 <= vy p' <= -1)%Q).

(** ** Concrete scenarios *)

(** A world whose cell [pos] has been replaced. *)
Definition with_cell (w : World) (pos : Z * Z) (c : TileCell) : World :=
  {| terrain := set_grid (terrain w) (<[pos := c]> (grid (terrain w)));
     ug_mole := ug_mole w; particle_pool := particle_pool w;
     camera_y := camera_y w; session := session w; rng_pos := rng_pos w |}.

Definition zero_stream : nat -> Q := fun _ => 0%Q.

Definition key_down : Keys :=
  {| K_LEFT := false; K_a := false; K_RIGHT := false; K_d := false;
     K_DOWN := true; K_s := false; K_UP := false; K_w := false |}.

(** The start-up world with the actor put on the last generated row
    (depth 20), so that the cell below it has never been generated. *)
Definition frontier_world : World :=
  set_mole (init_world zero_stream) (GridMole_init 10 20).

(** The start-up world with a Bronze cell of durability 3 below the actor. *)
Definition bronze_world : World :=
  with_cell (init_world zero_stream) (10, 6) {| kind := BRONZE; durability := 3 |}.

(** The start-up world with a Rock cell below the actor. *)
Definition rock_world : World :=
  with_cell (init_world zero_stream) (10, 6) {| kind := ROCK; durability := 9999 |}.

(** The world after one more frame (unchanged if the frame raises). *)
Definition next_world (w : World) (keys : Keys) (dt : Z) : World :=
  match underground_frame zero_stream w keys dt with
  | Ok w' => w'
  | KeyError => w
  end.

(** ** Further predicates *)

(** The grid holds exactly the rows [0 .. h], each with all its columns. *)
Definition dom_rect (g : gmap (Z * Z) TileCell) (h : Z) : Prop :=
  ∀ a b, is_Some (g !! (a, b)) ↔ (0 <= a < COLS ∧ 0 <= b <= h).

(** The sprite index [GridMole.draw] reads (line 149):
    [min(self.frame, len(self.anims[self.state]) - 1)]. *)
Definition draw_frame_index (m : GridMole) : Z :=
  Z.min (frame m) (anim_len (state m) - 1).

(** What start-up establishes and every later step keeps. *)
Record world_wf (w : World) : Prop := {
  wf_dom : dom_rect (grid (terrain w)) (highest_y_generated (terrain w));
  wf_mole_x : 0 <= grid_x (ug_mole w) < COLS;
  wf_mole_y : 0 <= grid_y (ug_mole w);
  wf_ahead : grid_y (ug_mole w) + 1 <= highest_y_generated (terrain w);
  wf_cell : kind (grid_get (grid (terrain w)) (grid_x (ug_mole w)) (grid_y (ug_mole w)))
            = EMPTY;
  wf_cam_pos : (0 <= camera_y w)%Q;
  wf_cam_lag : (inject_Z (grid_y (ug_mole w) * TILE_SIZE) - 448 <= camera_y w)%Q;
  wf_visible : Qfloor (camera_y w / inject_Z TILE_SIZE) + ROWS + 1
               <= highest_y_generated (terrain w);
  wf_frame : 0 <= frame (ug_mole w) <= 1;
  wf_money : 0 <= money (session w);
  wf_level : 1 <= shovel_level (session w);
  wf_counts : forall k n, inventory (session w) !! k = Some n -> 0 <= n
}.

(** The part of the invariant that an attempt alone keeps. *)
Definition shaft_ok (w : World) : Prop :=
  dom_rect (grid (terrain w)) (highest_y_generated (terrain w)) ∧
  0 <= grid_x (ug_mole w) < COLS ∧ 0 <= grid_y (ug_mole w) ∧
  kind (grid_get (grid (terrain w)) (grid_x (ug_mole w)) (grid_y (ug_mole w))) = EMPTY.

(** ** Rendering helpers *)

(** Python's [int(...)] on a float: truncation toward zero. *)
Definition py_int (q : Q) : Z :=
  if Qlt_le_dec q 0 then Qceiling q else Qfloor q.

(** [create_light_mask(radius, intensity)] (lines 100-105): the circles it
    draws, in drawing order, each with its radius and its grey value
    [int(intensity * (1 - (r / radius) ** 2))]; [range(radius, 0, -2)]
    yields [radius - 2 i] for [i < (radius + 1) // 2]. *)
Definition light_value (radius intensity r : Z) : Z :=
  py_int (inject_Z intensity * (1 - (inject_Z r / inject_Z radius) ^ 2))%Q.

Definition create_light_mask (radius intensity : Z) : list (Z * Z) :=
  (fun i => (radius - 2 * i, light_value radius intensity (radius - 2 * i)))
    <$> seqZ 0 ((radius + 1) / 2).

(** The durability bar of [Terrain.draw] (lines 234 and 248-253): the
    width of the green part when a bar is drawn at all. *)
Definition durability_bar (c : TileCell) : option Z :=
  if decide (kind c = EMPTY) then None
  else
    let max_hp := DURABILITY_get (kind c) in
    if decide (kind c ≠ ROCK ∧ durability c < max_hp) then
      Some (py_int (inject_Z (TILE_SIZE - 4)
                    * (inject_Z (durability c) / inject_Z max_hp))%Q)
    else None.

(** ** The overworld (lines 35-50, 275-293, 356-380) *)

Definition LEVEL_MAP : list string := [
  "WWWWWWWWWWWWWWWWWWWW";
  "W..................W";
  "W..WWWW......WWWW..W";
  "W..W............W..W";
  "W........C.........W";
  "W......CCOCC.......W";
  "W........C.........W";
  "W..W............W..W";
  "W..WWWW......WWWW..W";
  "W..................W";
  "W..t...............W";
  "W.......H..........W";
  "W.........S........W";
  "WWWWWWWWWWWWWWWWWWWW"
]%string.

Record Overworld : Type := {
  ow_grid : gmap (Z * Z) Ascii.ascii;
  orpheus_pos : option (Z * Z);
  hole_pos : option (Z * Z);
  torch_pos : option (Z * Z);
  spawn_pos : Z * Z
}.

Definition Overworld_blank : Overworld :=
  {| ow_grid := ∅; orpheus_pos := None; hole_pos := None; torch_pos := None;
     spawn_pos := (COLS / 2, ROWS / 2) |}.

(** The body of the two [enumerate] loops (lines 283-291). *)
Definition load_char (o : Overworld) (c_idx r_idx : Z) (char : Ascii.ascii) : Overworld :=
  let g := <[(c_idx, r_idx) := char]> (ow_grid o) in
  let floor := <[(c_idx, r_idx) := "."%char]> g in
  if decide (char = "O"%char) then
    {| ow_grid := g; orpheus_pos := Some (c_idx, r_idx); hole_pos := hole_pos o;
       torch_pos := torch_pos o; spawn_pos := spawn_pos o |}
  else if decide (char = "H"%char) then
    {| ow_grid := g; orpheus_pos := orpheus_pos o; hole_pos := Some (c_idx, r_idx);
       torch_pos := torch_pos o; spawn_pos := spawn_pos o |}
  else if decide (char = "t"%char) then
    {| ow_grid := floor; orpheus_pos := orpheus_pos o; hole_pos := hole_pos o;
       torch_pos := Some (c_idx, r_idx); spawn_pos := spawn_pos o |}
  else if decide (char = "S"%char) then
    {| ow_grid := floor; orpheus_pos := orpheus_pos o; hole_pos := hole_pos o;
       torch_pos := torch_pos o; spawn_pos := (c_idx, r_idx) |}
  else
    {| ow_grid := g; orpheus_pos := orpheus_pos o; hole_pos := hole_pos o;
       torch_pos := torch_pos o; spawn_pos := spawn_pos o |}.

Definition load_row (o : Overworld) (r_idx : Z) (row : string) : Overworld :=
  foldl (fun o '(c_idx, char) => load_char o (Z.of_nat c_idx) r_idx char) o
        (imap pair (String.list_ascii_of_string row)).

Definition load_level (rows : list string) : Overworld :=
  foldl (fun o '(r_idx, row) => load_row o (Z.of_nat r_idx) row) Overworld_blank
        (imap pair rows).

Definition overworld : Overworld := load_level LEVEL_MAP.

(** [ow_grid.get((x, y), 'W')] *)
Definition ow_tile (g : gmap (Z * Z) Ascii.ascii) (cx cy : Z) : Ascii.ascii :=
  default "W"%char (g !! (cx, cy)).

(** [target_tile in ['.', 'S']] *)
Definition walkable (t : Ascii.ascii) : Prop := t = "."%char ∨ t = "S"%char.

(** One frame of the WALK sub-state for the actor (lines 356-380); the
    key handling is the one of the underground pipeline. *)
Definition ow_walk (g : gmap (Z * Z) Ascii.ascii) (m : GridMole) (keys : Keys) (dt : Z) : GridMole :=
  let m := set_timer m (can_move_timer m - dt) in
  let '(dx, dy, m) := read_direction m keys in
  let m :=
    if decide (dx ≠ 0 ∨ dy ≠ 0) then
      let tx := grid_x m + dx in
      let ty := grid_y m + dy in
      if decide (walkable (ow_tile g tx ty)) then step_into m tx ty dx dy
      else set_state m IDLE
    else if Z_le_dec (can_move_timer m) 0 then set_state m IDLE
    else m in
  process_animation m dt.

Definition ow_mole_init : GridMole :=
  GridMole_init (spawn_pos overworld).1 (spawn_pos overworld).2.

(** What the main loop does to the overworld actor: a WALK frame, or the
    timer reset when the player comes back to the surface (line 467). *)
Inductive OwEvent : Type :=
  | OwWalkFrame (keys : Keys) (dt : Z)
  | OwSurface.

Definition ow_event (g : gmap (Z * Z) Ascii.ascii) (m : GridMole) (e : OwEvent) : GridMole :=
  match e with
  | OwWalkFrame keys dt => ow_walk g m keys dt
  | OwSurface => set_timer m 300
  end.

Definition ow_run (events : list OwEvent) : GridMole :=
  foldl (ow_event (ow_grid overworld)) ow_mole_init events.

(** ** The mode variables of the main loop

    [global_state], [overworld_substate] and [show_inventory], with every
    assignment the loop makes to them (lines 333-348, 387-405, 465-466).
    What the frame needs from the mouse and from the actor's position is
    an input: whether the click edge fired, which buttons the pointer is
    on, and which of the proximity tests ([dist < 2.0]) hold. *)

Inductive GlobalState : Set := OVERWORLD | UNDERGROUND.

Inductive Substate : Set := WALK | DIALOGUE | SHOP.

Record Ui : Set := {
  global_state : GlobalState;
  overworld_substate : Substate;
  show_inventory : bool
}.

Record UiInput : Set := {
  escapes : nat;
  mouse_clicked : bool;
  on_close_inv : bool;
  on_inv_toggle : bool;
  near_npc : bool;
  on_talk : bool;
  near_hole : bool;
  on_mine : bool;
  on_open_shop : bool;
  on_close_shop : bool;
  on_surface : bool
}.

Definition Ui_init : Ui :=
  {| global_state := OVERWORLD; overworld_substate := WALK; show_inventory := false |}.

Definition set_substate (u : Ui) (s : Substate) : Ui :=
  {| global_state := global_state u; overworld_substate := s;
     show_inventory := show_inventory u |}.

Definition set_show_inventory (u : Ui) (b : bool) : Ui :=
  {| global_state := global_state u; overworld_substate := overworld_substate u;
     show_inventory := b |}.

Definition set_global (u : Ui) (g : GlobalState) : Ui :=
  {| global_state := g; overworld_substate := overworld_substate u;
     show_inventory := show_inventory u |}.

(** One [KEYDOWN K_ESCAPE] event (lines 336-340). *)
Definition on_escape (u : Ui) : Ui :=
  if show_inventory u then set_show_inventory u false
  else match overworld_substate u with
       | DIALOGUE | SHOP => set_substate u WALK
       | WALK => u
       end.

(** Lines 342-348. *)
Definition ui_inventory (u : Ui) (i : UiInput) : Ui :=
  if show_inventory u then
    if mouse_clicked i && on_close_inv i then set_show_inventory u false else u
  else if mouse_clicked i && on_inv_toggle i then
    match overworld_substate u with
    | WALK => set_show_inventory u true
    | _ => u
    end
  else u.

(** The mode changes of the two pipelines (lines 352-467). *)
Definition ui_pipeline (u : Ui) (i : UiInput) : Ui :=
  if show_inventory u then u
  else match global_state u with
       | OVERWORLD =>
           match overworld_substate u with
           | WALK =>
               if near_npc i && mouse_clicked i && on_talk i then set_substate u DIALOGUE
               else if near_hole i && mouse_clicked i && on_mine i
                    then set_global u UNDERGROUND
               else u
           | DIALOGUE =>
               if mouse_clicked i && on_open_shop i then set_substate u SHOP else u
           | SHOP =>
               if mouse_clicked i then
                 if on_close_shop i then set_substate u WALK else u
               else u
           end
       | UNDERGROUND =>
           if mouse_clicked i && on_surface i then set_global u OVERWORLD else u
       end.

Definition ui_frame (u : Ui) (i : UiInput) : Ui :=
  ui_pipeline (ui_inventory (Nat.iter (escapes i) on_escape u) i) i.

Definition ui_run (inputs : list UiInput) : Ui := foldl ui_frame Ui_init inputs.

(** The check that a walkable tile is a floor tile strictly inside the
    outer wall. *)
Definition floor_inside (entry : Z * Z * Ascii.ascii) : bool :=
  let '(cx, cy, t) := entry in
  if decide (walkable t) then
    bool_decide (t = "."%char) && bool_decide (1 <= cx <= 18) && bool_decide (1 <= cy <= 12)
  else true.

(** What the mode variables satisfy at all times. *)
Definition ui_inv (u : Ui) : Prop :=
  (show_inventory u = true → overworld_substate u = WALK) ∧
  (global_state u = UNDERGROUND → overworld_substate u = WALK).

(** What lines 283-291 leave in [ow_grid] for a character of the level
    text: the torch and spawn markers become floor, every other character
    is stored as it is. *)
Definition stored_char (ch : Ascii.ascii) : Ascii.ascii :=
  if decide (ch = "t"%char ∨ ch = "S"%char) then "."%char else ch.

(** [ow_grid.get((c, r), '.')] of the renderer (line 474). *)
Definition ow_draw_tile (g : gmap (Z * Z) Ascii.ascii) (cx cy : Z) : Ascii.ascii :=
  default "."%char (g !! (cx, cy)).

(** * Properties *)

(** ** Numeric helpers *)

Lemma py_max_ge_l a b : (a <= py_max a b)%Q.
Proof. unfold py_max. destruct (Qlt_le_dec a b); lra. Qed.

Lemma py_max_ge_r a b : (b <= py_max a b)%Q.
Proof. unfold py_max. destruct (Qlt_le_dec a b); lra. Qed.

Lemma py_max_mono_r a b c : (b <= c)%Q -> (py_max a b <= py_max a c)%Q.
Proof. unfold py_max. intros. repeat destruct Qlt_le_dec; lra. Qed.

Lemma py_maxZ_spec a b : py_maxZ a b = Z.max a b.
Proof. unfold py_maxZ. destruct (Z_lt_dec a b); lia. Qed.

(** ** Dig cooldown *)

(** C6: the dig cooldown [max(50, 250 - shovel_level * 20)] never
    increases when the shovel level goes up, for every level from 1 on,
    and is never below the minimum of 50. *)
Theorem dig_cooldown_nonincreasing_floored (l1 l2 : Z) :
  1 <= l1 -> l1 <= l2 ->
  dig_cooldown l2 <= dig_cooldown l1 /\
  50 <= dig_cooldown l2 /\
  dig_cooldown l1 = Z.max 50 (250 - l1 * 20).
Proof.
  intros H1 H12. unfold dig_cooldown. rewrite !py_maxZ_spec. lia.
Qed.

Lemma dig_cooldown_nonincreasing_floored_witness :
  dig_cooldown 4 <= dig_cooldown 2 /\ 50 <= dig_cooldown 4 /\
  dig_cooldown 2 = Z.max 50 (250 - 2 * 20).
Proof. apply (dig_cooldown_nonincreasing_floored 2 4); lia. Defined.

(** ** Depth-scaled weights *)

Lemma scaled_depth_pos y_depth : 20 < y_depth -> scaled_depth y_depth = y_depth - 20.
Proof. intros. unfold scaled_depth. rewrite py_maxZ_spec. lia. Qed.

Lemma row_weights_scaled y_depth :
  20 < y_depth ->
  row_weights y_depth =
    let sd := y_depth - 20 in
    let w1 := py_max 5 (linear N_ROCK sd) in
    let w2 := py_max 1 (linear N_BRONZE sd) in
    let w3 := py_max 1 (linear N_SILVER sd) in
    let w4 := linear N_GOLD sd in
    let w5 := linear N_DIAMOND sd in
    [py_max 10 (100 - sumQ [w1; w2; w3; w4; w5])%Q; w1; w2; w3; w4; w5].
Proof.
  intros H. unfold row_weights. rewrite scaled_depth_pos by done.
  destruct (Z_lt_dec 0 (y_depth - 20)); [done | lia].
Qed.

Lemma linear_grows n sd1 sd2 :
  (0 <= scale (ORE_CONFIG n))%Q -> sd1 <= sd2 -> (linear n sd1 <= linear n sd2)%Q.
Proof.
  intros Hs Hle. unfold linear. apply Qplus_le_r.
  apply Qmult_le_compat_r; [by rewrite <- Zle_Qle | done].
Qed.

Lemma linear_decays n sd1 sd2 :
  (scale (ORE_CONFIG n) <= 0)%Q -> sd1 <= sd2 -> (linear n sd2 <= linear n sd1)%Q.
Proof.
  intros Hs Hle. unfold linear. apply Qplus_le_r.
  rewrite Zle_Qle in Hle. nra.
Qed.

(** C2, as the code has it: on the rows with a positive effective depth
    the Bronze and Silver weights decay with depth (floored at 1), the
    Rock weight grows with depth like the Gold and Diamond weights do (its
    scale is +0.05, its floor of 5 is never reached), the Gold and Diamond
    weights carry no floor, and the Dirt weight is the remainder floored at
    10. At row 25 the Gold and Diamond weights exceed their baseline, the
    Bronze weight is at most its configured base of 15 (and above the
    weight of 8 that the unscaled list gives it), and the Rock weight is
    above its baseline. *)
Theorem row_weights_depth_scaling (y1 y2 : Z) :
  20 < y1 -> y1 <= y2 ->
  (weight_of BRONZE (row_weights y2) <= weight_of BRONZE (row_weights y1))%Q /\
  (weight_of SILVER (row_weights y2) <= weight_of SILVER (row_weights y1))%Q /\
  (weight_of ROCK (row_weights y1) <= weight_of ROCK (row_weights y2))%Q /\
  (weight_of GOLD (row_weights y1) <= weight_of GOLD (row_weights y2))%Q /\
  (weight_of DIAMOND (row_weights y1) <= weight_of DIAMOND (row_weights y2))%Q /\
  weight_of ROCK (row_weights y1) = py_max 5 (linear N_ROCK (scaled_depth y1)) /\
  weight_of BRONZE (row_weights y1) = py_max 1 (linear N_BRONZE (scaled_depth y1)) /\
  weight_of SILVER (row_weights y1) = py_max 1 (linear N_SILVER (scaled_depth y1)) /\
  weight_of GOLD (row_weights y1) = linear N_GOLD (scaled_depth y1) /\
  weight_of DIAMOND (row_weights y1) = linear N_DIAMOND (scaled_depth y1) /\
  weight_of DIRT (row_weights y1)
    = py_max 10 (100 - sumQ [weight_of ROCK (row_weights y1);
                              weight_of BRONZE (row_weights y1);
                              weight_of SILVER (row_weights y1);
                              weight_of GOLD (row_weights y1);
                              weight_of DIAMOND (row_weights y1)])%Q /\
  (10 <= weight_of DIRT (row_weights y1))%Q /\
  (weight_of GOLD (row_weights 0) < weight_of GOLD (row_weights 25))%Q /\
  (base (ORE_CONFIG N_GOLD) < weight_of GOLD (row_weights 25))%Q /\
  (weight_of DIAMOND (row_weights 0) < weight_of DIAMOND (row_weights 25))%Q /\
  (base (ORE_CONFIG N_DIAMOND) < weight_of DIAMOND (row_weights 25))%Q /\
  (weight_of BRONZE (row_weights 25) <= base (ORE_CONFIG N_BRONZE))%Q /\
  (weight_of BRONZE (row_weights 0) < weight_of BRONZE (row_weights 25))%Q /\
  (weight_of ROCK (row_weights 0) < weight_of ROCK (row_weights 25))%Q /\
  (base (ORE_CONFIG N_ROCK) < weight_of ROCK (row_weights 25))%Q.
Proof.
  intros H1 H12.
  assert (Hsd : y1 - 20 <= y2 - 20) by lia.
  rewrite (row_weights_scaled y1), (row_weights_scaled y2) by lia.
  rewrite (scaled_depth_pos y1) by done.
  cbn [weight_of nth].
  split; [apply py_max_mono_r, linear_decays; [by vm_compute | done] |].
  split; [apply py_max_mono_r, linear_decays; [by vm_compute | done] |].
  split; [apply py_max_mono_r, linear_grows; [by vm_compute | done] |].
  split; [apply linear_grows; [by vm_compute | done] |].
  split; [apply linear_grows; [by vm_compute | done] |].
  do 6 (split; [reflexivity |]).
  split; [apply py_max_ge_l |].
  repeat split; by vm_compute.
Qed.

Lemma row_weights_depth_scaling_witness :
  (weight_of BRONZE (row_weights 30) <= weight_of BRONZE (row_weights 25))%Q /\
  (weight_of ROCK (row_weights 25) <= weight_of ROCK (row_weights 30))%Q.
Proof.
  pose proof (row_weights_depth_scaling 25 30 ltac:(lia) ltac:(lia)) as H.
  split; [apply H | apply H].
Defined.

(** C2, as stated, fails for Rock: its weight at row 25 is 10.25, above
    the baseline of 10, and it keeps growing from one row to the next. *)
Lemma rock_weight_row25_above_baseline :
  ~ ((weight_of ROCK (row_weights 25) <= weight_of ROCK (row_weights 0))%Q /\
     (scale (ORE_CONFIG N_ROCK) < 0)%Q).
Proof. intros [H _]. vm_compute in H. by apply H. Qed.

(** ** Camera *)

Lemma camera_target_nonneg depth : (0 <= camera_target depth)%Q.
Proof. apply py_max_ge_l. Qed.

(** Each frame keeps nine tenths of the remaining distance. *)
Lemma camera_follow_gap target cam :
  (target - camera_follow target cam == (9 # 10) * (target - cam))%Q.
Proof. unfold camera_follow. lra. Qed.

Lemma camera_after_below target cam n :
  (cam <= target)%Q ->
  (camera_after n target cam <= camera_after (S n) target cam)%Q /\
  (camera_after (S n) target cam <= target)%Q.
Proof.
  intros Hle.
  assert (Hn : forall k, (camera_after k target cam <= target)%Q).
  { induction k as [|k IH]; cbn [camera_after]; [done|].
    unfold camera_follow. lra. }
  split; [|apply Hn].
  cbn [camera_after]. specialize (Hn n). unfold camera_follow. lra.
Qed.

Lemma camera_after_above target cam n :
  (target <= cam)%Q ->
  (target <= camera_after (S n) target cam)%Q /\
  (camera_after (S n) target cam <= camera_after n target cam)%Q.
Proof.
  intros Hle.
  assert (Hn : forall k, (target <= camera_after k target cam)%Q).
  { induction k as [|k IH]; cbn [camera_after]; [done|].
    unfold camera_follow. lra. }
  split; [apply Hn|].
  cbn [camera_after]. specialize (Hn n). unfold camera_follow. lra.
Qed.

(** The gap shrinks at least like [9 / (9 + n)]. *)
Lemma camera_gap_bound target cam n :
  (Qabs (target - camera_after n target cam) * (9 + inject_Z (Z.of_nat n))
   <= 9 * Qabs (target - cam))%Q.
Proof.
  induction n as [|n IH].
  - cbn [camera_after]. change (inject_Z (Z.of_nat 0)) with 0%Q. lra.
  - cbn [camera_after]. rewrite camera_follow_gap, Qabs_Qmult.
    change (Qabs (9 # 10)) with (9 # 10)%Q.
    rewrite Nat2Z.inj_succ. unfold Z.succ. rewrite inject_Z_plus.
    change (inject_Z 1) with 1%Q.
    pose proof (Qabs_nonneg (target - camera_after n target cam)) as Hpos.
    assert (Hn : (0 <= inject_Z (Z.of_nat n))%Q).
    { change 0%Q with (inject_Z 0). rewrite <- Zle_Qle. lia. }
    set (D := Qabs (target - camera_after n target cam)) in *.
    set (N := inject_Z (Z.of_nat n)) in *.
    nra.
Qed.

Lemma camera_converges target cam eps :
  (0 < eps)%Q ->
  exists N : nat, forall n, (N <= n)%nat ->
    (Qabs (target - camera_after n target cam) < eps)%Q.
Proof.
  intros Heps.
  set (D0 := Qabs (target - cam)).
  pose proof (Qabs_nonneg (target - cam)) as HD0. fold D0 in HD0.
  exists (Z.to_nat (Qfloor (9 * D0 / eps) + 1)).
  intros n Hn.
  pose proof (camera_gap_bound target cam n) as Hb. fold D0 in Hb.
  pose proof (Qabs_nonneg (target - camera_after n target cam)) as Hpos.
  set (D := Qabs (target - camera_after n target cam)) in *.
  assert (Hq : (9 * D0 / eps < inject_Z (Z.of_nat n))%Q).
  { eapply Qlt_le_trans; [apply Qlt_floor|].
    rewrite <- Zle_Qle. lia. }
  assert (Hq' : (9 * D0 < inject_Z (Z.of_nat n) * eps)%Q).
  { apply (Qmult_lt_r _ _ eps) in Hq; [|done].
    assert (He : (9 * D0 / eps * eps == 9 * D0)%Q) by (field; lra).
    rewrite He in Hq. done. }
  set (N := inject_Z (Z.of_nat n)) in *.
  assert (HN : (0 <= N)%Q).
  { unfold N. change 0%Q with (inject_Z 0). rewrite <- Zle_Qle. lia. }
  destruct (Qlt_le_dec D eps) as [|Hge]; [done|].
  exfalso. nra.
Qed.

(** The run from 0 toward 160 in binary64: the offset rests at
    [camera_rest_160] from frame 400 on. *)
Lemma camera_after_f64_rest k :
  camera_after_f64 (k + 400) 160%float 0%float = camera_rest_160.
Proof.
  induction k as [|k IH].
  - by vm_compute.
  - cbn [Nat.add camera_after_f64]. rewrite IH. by vm_compute.
Qed.

(** On that run every frame moves the offset up or leaves it, and never
    past the target. *)
Lemma camera_f64_run_approaches n :
  PrimFloat.leb (camera_after_f64 n 160%float 0%float)
                (camera_after_f64 (S n) 160%float 0%float) = true /\
  PrimFloat.leb (camera_after_f64 (S n) 160%float 0%float) 160%float = true.
Proof.
  destruct (Nat.lt_ge_cases n 400) as [Hlt|Hge].
  - assert (Hall : forallb (fun n =>
        PrimFloat.leb (camera_after_f64 n 160%float 0%float)
                      (camera_after_f64 (S n) 160%float 0%float)
        && PrimFloat.leb (camera_after_f64 (S n) 160%float 0%float) 160%float)
      (List.seq 0 400) = true) by (by vm_compute).
    rewrite forallb_forall in Hall. specialize (Hall n).
    apply andb_prop. apply Hall. apply in_seq. lia.
  - replace n with ((n - 400) + 400)%nat by lia.
    change (S (n - 400 + 400)) with (S (n - 400) + 400)%nat.
    rewrite !camera_after_f64_rest. by vm_compute.
Qed.

(** C8: the camera offset follows [camera += (targetY - camera) * 0.1]
    with [targetY = max(0, depth * TILE_SIZE - HEIGHT // 3)]; while the
    target stays put the offsets move monotonically toward it, never
    cross it, never fall back, and come within one pixel of it (for
    depths up to a million rows, where the rounding of a double stays far
    below a pixel). *)
Theorem camera_approaches_monotonically (depth : Z) (cam : Q) (n : nat) :
  depth <= 1000000 ->
  let target := camera_target depth in
  camera_target depth = py_max 0 (inject_Z (depth * 32 - 160)) /\
  camera_follow target cam = (cam + (target - cam) * (1 # 10))%Q /\
  ((cam <= target)%Q ->
     (camera_after n target cam <= camera_after (S n) target cam)%Q /\
     (camera_after (S n) target cam <= target)%Q) /\
  ((target <= cam)%Q ->
     (target <= camera_after (S n) target cam)%Q /\
     (camera_after (S n) target cam <= camera_after n target cam)%Q) /\
  (Qabs (target - camera_after (S n) target cam)
     <= Qabs (target - camera_after n target cam))%Q /\
  (exists N : nat, forall m, (N <= m)%nat ->
     (Qabs (target - camera_after m target cam) < 1)%Q).
Proof.
  intros _ target.
  split; [reflexivity|]. split; [reflexivity|].
  split; [apply camera_after_below|]. split; [apply camera_after_above|].
  split; [|by apply camera_converges].
  cbn [camera_after]. rewrite camera_follow_gap, Qabs_Qmult.
  change (Qabs (9 # 10)) with (9 # 10)%Q.
  pose proof (Qabs_nonneg (target - camera_after n target cam)). lra.
Qed.

Lemma camera_approaches_monotonically_witness :
  (camera_after 2 (camera_target 10) 0 <= camera_after 3 (camera_target 10) 0)%Q /\
  (camera_after 3 (camera_target 10) 0 <= camera_target 10)%Q.
Proof.
  pose proof (camera_approaches_monotonically 10 0 2 ltac:(lia)) as H.
  cbv zeta in H. destruct H as (_ & _ & Hb & _).
  apply Hb. by vm_compute.
Defined.

(** The offsets do not come arbitrarily close to the target: with the
    actor at depth 10 the target is 160, and from 0 the doubles of line
    462 come to rest at [159.99999999999989], more than [2^-44] short. *)
Lemma camera_f64_rests_short_of_target :
  ~ (forall eps : float, PrimFloat.ltb 0%float eps = true ->
       exists N : nat, forall m : nat, (N <= m)%nat ->
         PrimFloat.ltb
           (PrimFloat.abs (PrimFloat.sub 160%float (camera_after_f64 m 160%float 0%float)))
           eps = true).
Proof.
  intros H. destruct (H 0x1p-44%float eq_refl) as [N HN].
  specialize (HN (N + 400)%nat ltac:(lia)).
  rewrite camera_after_f64_rest in HN. by vm_compute in HN.
Qed.

(** ** Terrain generation *)

Lemma gen_ext_refl g : gen_ext g g.
Proof. intros pos c H. by left. Qed.

Lemma gen_ext_trans g1 g2 g3 : gen_ext g1 g2 → gen_ext g2 g3 → gen_ext g1 g3.
Proof.
  intros H12 H23 pos c H3.
  destruct (H23 pos c H3) as [H2|Hg]; [by apply H12 | by right].
Qed.

Lemma gen_ext_insert g pos c : generated c → gen_ext g (<[pos := c]> g).
Proof.
  intros Hg pos' c' H.
  destruct (decide (pos = pos')) as [->|Hne].
  - rewrite lookup_insert_eq in H. right. congruence.
  - rewrite lookup_insert_ne in H by done. by left.
Qed.

Lemma row_insert_lookup (c : TileCell) (cy : Z) (l : list Z) (g : gmap (Z * Z) TileCell) a b :
  foldl (λ g cx, <[(cx, cy) := c]> g) g l !! (a, b)
  = if decide (b = cy ∧ a ∈ l) then Some c else g !! (a, b).
Proof.
  revert g. induction l as [|h l IH]; intros g; cbn [foldl].
  - case_decide as Hd; [|done]. destruct Hd as [_ Hin]. by apply elem_of_nil in Hin.
  - rewrite IH. destruct (decide (b = cy ∧ a ∈ l)) as [[Hb Hin]|Hnin].
    + rewrite decide_True; [done|]. split; [done|]. apply elem_of_cons. by right.
    + destruct (decide ((h, cy) = (a, b))) as [Heq|Hne].
      * injection Heq as -> ->. rewrite lookup_insert_eq, decide_True; [done|].
        split; [done|]. apply elem_of_cons. by left.
      * rewrite lookup_insert_ne by done. rewrite decide_False; [done|].
        intros [-> Hin]. apply elem_of_cons in Hin as [->|Hin]; [by apply Hne|].
        apply Hnin. by split.
Qed.

Lemma fill_dirt_lookup g cy a b :
  fill_dirt g cy !! (a, b)
  = if decide (b = cy ∧ 0 <= a < COLS) then Some {| kind := DIRT; durability := 1 |}
    else g !! (a, b).
Proof.
  unfold fill_dirt. rewrite row_insert_lookup. unfold columns.
  destruct (decide (b = cy ∧ 0 <= a < COLS)) as [[Hb Ha]|Hn].
  - rewrite decide_True; [done|]. split; [done|]. apply elem_of_seqZ. lia.
  - rewrite decide_False; [done|]. intros [Hb Ha]. apply elem_of_seqZ in Ha.
    apply Hn. split; [done | lia].
Qed.

Lemma bisect_le a v hi : (bisect a v hi <= hi)%nat.
Proof.
  revert a. induction hi as [|hi IH]; intros [|e a]; cbn [bisect]; try lia.
  destruct (Qlt_le_dec v e); [lia|]. specialize (IH a). lia.
Qed.

Lemma random_choice_generated ws u :
  generated {| kind := random_choice choices ws u;
               durability := DURABILITY_get (random_choice choices ws u) |}.
Proof.
  unfold random_choice.
  pose proof (bisect_le (accumulate ws) (u * List.last (accumulate ws) 0)%Q
                (length choices - 1)) as Hle.
  set (i := bisect _ _ _) in *. cbn in Hle.
  do 6 (destruct i as [|i]; [by split|]). lia.
Qed.

Section Generation.

Variable rand : nat -> Q.

Lemma sample_row_gen_ext g cy ws cur :
  gen_ext g (sample_row rand g cy ws cur).1.
Proof.
  unfold sample_row. generalize columns. intros l.
  revert g cur. induction l as [|h l IH]; intros g cur; cbn [foldl].
  - apply gen_ext_refl.
  - eapply gen_ext_trans; [|apply IH].
    apply gen_ext_insert, random_choice_generated.
Qed.

Lemma fill_dirt_gen_ext g cy : gen_ext g (fill_dirt g cy).
Proof.
  intros [a b] c. rewrite fill_dirt_lookup. case_decide; [|by left].
  intros [= <-]. right. by split.
Qed.

Lemma generate_row_gen_ext t cy cur :
  gen_ext (grid t) (grid (generate_row rand t cy cur).1).
Proof.
  unfold generate_row. case_decide as Hrow; [apply gen_ext_refl|].
  destruct (Z_lt_dec cy 10); [apply fill_dirt_gen_ext|].
  pose proof (sample_row_gen_ext (grid t) cy (row_weights cy) cur) as Hs.
  by destruct (sample_row rand (grid t) cy (row_weights cy) cur).
Qed.

Lemma generate_rows_gen_ext l t cur :
  gen_ext (grid t)
    (grid (foldl (λ '(t, cur) cy, generate_row rand t cy cur) (t, cur) l).1).
Proof.
  revert t cur. induction l as [|h l IH]; intros t cur; cbn [foldl].
  - apply gen_ext_refl.
  - pose proof (generate_row_gen_ext t h cur) as H.
    destruct (generate_row rand t h cur) as [t1 cur1].
    eapply gen_ext_trans; [exact H | apply IH].
Qed.

Lemma ensure_generated_gen_ext t target cur :
  gen_ext (grid t) (grid (ensure_generated rand t target cur).1).
Proof.
  unfold ensure_generated. destruct (Z_lt_dec _ _); [|apply gen_ext_refl].
  pose proof (generate_rows_gen_ext
    (seqZ (highest_y_generated t + 1) (target - highest_y_generated t)) t cur) as H.
  by destruct (foldl _ _ _).
Qed.

End Generation.

(** C9: for every depth [d < 10], generating the row at depth [d] makes
    every cell of that row Dirt with full durability; no random draw is
    consumed and the outcome is the same for every random stream. *)
Theorem safe_shaft_rows_are_dirt (rand rand' : nat -> Q) (t : Terrain) (d : Z)
    (cur cur' : nat) :
  d < 10 ->
  grid t !! (0, d) = None ->
  (forall cx, 0 <= cx < COLS ->
     grid (generate_row rand t d cur).1 !! (cx, d)
     = Some {| kind := DIRT; durability := 1 |}) /\
  DURABILITY DIRT = Some 1 /\
  (generate_row rand t d cur).2 = cur /\
  (generate_row rand' t d cur').1 = (generate_row rand t d cur).1 /\
  (forall cx cy, cy <> d ->
     grid (generate_row rand t d cur).1 !! (cx, cy) = grid t !! (cx, cy)).
Proof.
  intros Hd Hnone. unfold generate_row. rewrite Hnone.
  case_decide as Hs; [by destruct Hs|].
  destruct (Z_lt_dec d 10); [|lia]. cbn.
  repeat split; try done.
  - intros cx Hcx. rewrite fill_dirt_lookup. by rewrite decide_True.
  - intros cx cy Hne. rewrite fill_dirt_lookup. rewrite decide_False; [done|].
    by intros [Hcy _].
Qed.

Lemma safe_shaft_rows_are_dirt_witness :
  grid (generate_row (fun _ => 0%Q) Terrain_init 3 O).1 !! (7, 3)
  = Some {| kind := DIRT; durability := 1 |}.
Proof.
  apply (safe_shaft_rows_are_dirt (fun _ => 0%Q) (fun _ => 0%Q) Terrain_init 3 O O).
  - lia.
  - reflexivity.
  - by vm_compute.
Defined.

(** ** Particle pool *)

Lemma count_active_le_length pool : (count_active pool <= length pool)%nat.
Proof. unfold count_active. apply filter_length_le. Qed.

Lemma count_active_free pool : (count_active pool + count_free pool = length pool)%nat.
Proof.
  unfold count_active, count_free.
  induction pool as [|p pool IH]; cbn; [done|].
  destruct (active p); cbn; lia.
Qed.

Lemma update_and_draw_length pool : length (update_and_draw pool) = length pool.
Proof. unfold update_and_draw. apply length_map. Qed.

Lemma ParticlePool_init_length size : length (ParticlePool_init size) = size.
Proof. unfold ParticlePool_init. apply length_replicate. Qed.

Section Emit.

Variable rand : nat -> Q.

Lemma spawn_slot px py c cur p :
  (forall i, (0 <= rand i < 1)%Q) ->
  active p = false -> slot_emitted px py c p (spawn rand px py c cur).
Proof.
  intros Hr Hp. right. unfold spawn, uniform. cbn.
  pose proof (Hr cur). pose proof (Hr (S cur)).
  repeat split; try done; lra.
Qed.

Lemma emit_loop_length pool px py c count emitted cur :
  length (emit_loop rand pool px py c count emitted cur).1 = length pool.
Proof.
  revert emitted cur. induction pool as [|p pool IH]; intros emitted cur; cbn; [done|].
  destruct (active p).
  - specialize (IH emitted cur). destruct (emit_loop _ _ _ _ _ _ _ _). cbn in *. lia.
  - destruct (Z_le_dec count (emitted + 1)); [done|].
    specialize (IH (emitted + 1) (cur + 2)%nat).
    destruct (emit_loop _ _ _ _ _ _ _ _). cbn in *. lia.
Qed.

Lemma emit_loop_count pool px py c count emitted cur :
  emitted < count ->
  count_active (emit_loop rand pool px py c count emitted cur).1
  = (count_active pool + Nat.min (Z.to_nat (count - emitted)) (count_free pool))%nat.
Proof.
  revert emitted cur. unfold count_active, count_free.
  induction pool as [|p pool IH]; intros emitted cur Hlt; cbn [emit_loop].
  - cbn. lia.
  - destruct (active p) eqn:Hp.
    + specialize (IH emitted cur Hlt). destruct (emit_loop _ _ _ _ _ _ _ _).
      cbn in *. rewrite Hp. cbn. lia.
    + destruct (Z_le_dec count (emitted + 1)).
      * cbn. rewrite Hp. cbn. lia.
      * specialize (IH (emitted + 1) (cur + 2)%nat ltac:(lia)).
        destruct (emit_loop _ _ _ _ _ _ _ _). cbn in *. rewrite Hp. cbn.
        rewrite IH. lia.
Qed.

Lemma emit_loop_slots pool px py c count emitted cur :
  (forall i, (0 <= rand i < 1)%Q) ->
  Forall2 (slot_emitted px py c) pool
          (emit_loop rand pool px py c count emitted cur).1.
Proof.
  intros Hr. revert emitted cur.
  induction pool as [|p pool IH]; intros emitted cur; cbn [emit_loop]; [constructor|].
  destruct (active p) eqn:Hp.
  - specialize (IH emitted cur). destruct (emit_loop _ _ _ _ _ _ _ _).
    constructor; [by left | done].
  - destruct (Z_le_dec count (emitted + 1)).
    + constructor; [by apply spawn_slot|].
      apply Forall2_same_length_lookup_2; [done|]. intros i a b Ha Hb. left. congruence.
    + specialize (IH (emitted + 1) (cur + 2)%nat). destruct (emit_loop _ _ _ _ _ _ _ _).
      constructor; [by apply spawn_slot | done].
Qed.

(** [emit] with a count of at least 1 activates exactly
    [min(count, free)] particles, each with the given position and colour,
    life 255 and a velocity in [[-3, 3] x [-5, -1]],
    and never changes the size of the pool. *)
Lemma emit_activates_min pool px py c count cur :
  1 <= count ->
  (forall i, (0 <= rand i < 1)%Q) ->
  let pool' := (emit rand pool px py c count cur).1 in
  count_active pool' = (count_active pool + Nat.min (Z.to_nat count) (count_free pool))%nat ∧
  Forall2 (slot_emitted px py c) pool pool' ∧
  length pool' = length pool ∧
  (count_active pool' <= length pool)%nat.
Proof.
  intros Hc Hr pool'. subst pool'. unfold emit.
  split; [|split; [|split]].
  - rewrite emit_loop_count by lia. by rewrite Z.sub_0_r.
  - by apply emit_loop_slots.
  - apply emit_loop_length.
  - rewrite <- (emit_loop_length pool px py c count 0 cur). apply count_active_le_length.
Qed.

End Emit.

(** C7 at a count of zero: the loop tests [emitted >= count] only after
    it has claimed a slot, so [emit(count=0)] on an idle pool of 256 still
    activates one particle, where [min(0, 256)] is none. *)
Theorem emit_count_zero_activates_one (rand : nat -> Q) (px py : Q) (c : Color) (cur : nat) :
  count_free (ParticlePool_init POOL_SIZE) = 256%nat /\
  count_active (emit rand (ParticlePool_init POOL_SIZE) px py c 0 cur).1 = 1%nat /\
  Nat.min (Z.to_nat 0) (count_free (ParticlePool_init POOL_SIZE)) = 0%nat.
Proof. by vm_compute. Qed.

(** ** The mining attempt, branch by branch *)

Section Mining.

Variable rand : nat -> Q.

Lemma try_move_out_of_range w dx dy :
  ¬ in_range (grid_x (ug_mole w) + dx) (grid_y (ug_mole w) + dy) →
  try_move rand w dx dy = Ok (set_mole w (set_state (ug_mole w) IDLE)).
Proof. intros Hr. unfold try_move. by case_decide. Qed.

Lemma try_move_empty w dx dy d :
  let tx := grid_x (ug_mole w) + dx in
  let ty := grid_y (ug_mole w) + dy in
  in_range tx ty →
  grid (terrain w) !! (tx, ty) = Some {| kind := EMPTY; durability := d |} →
  try_move rand w dx dy = Ok (set_mole w (step_into (ug_mole w) tx ty dx dy)).
Proof.
  intros tx ty Hr Hc. unfold try_move. fold tx ty.
  case_decide; [|done]. unfold grid_get. by rewrite Hc.
Qed.

Lemma try_move_rock w dx dy d :
  let tx := grid_x (ug_mole w) + dx in
  let ty := grid_y (ug_mole w) + dy in
  grid (terrain w) !! (tx, ty) = Some {| kind := ROCK; durability := d |} →
  try_move rand w dx dy = Ok (set_mole w (set_state (ug_mole w) IDLE)).
Proof.
  intros tx ty Hc. unfold try_move. fold tx ty.
  case_decide; [|done]. unfold grid_get. by rewrite Hc.
Qed.

(** The fallback [[DIRT, 1]] of line 435 sends a missing cell into the
    digging branch, whose subscript at line 442 then fails. *)
Lemma try_move_unloaded w dx dy :
  let tx := grid_x (ug_mole w) + dx in
  let ty := grid_y (ug_mole w) + dy in
  in_range tx ty →
  grid (terrain w) !! (tx, ty) = None →
  try_move rand w dx dy = KeyError.
Proof.
  intros tx ty Hr Hc. unfold try_move. fold tx ty.
  case_decide; [|done]. unfold grid_get, getitem. by rewrite Hc.
Qed.

Lemma try_move_hit w dx dy k d :
  let tx := grid_x (ug_mole w) + dx in
  let ty := grid_y (ug_mole w) + dy in
  in_range tx ty →
  grid (terrain w) !! (tx, ty) = Some {| kind := k; durability := d |} →
  diggable k → 1 < d →
  try_move rand w dx dy =
    Ok {| terrain := set_grid (terrain w)
                       (<[(tx, ty) := {| kind := k; durability := d - 1 |}]> (grid (terrain w)));
          ug_mole := set_state (set_timer (ug_mole w)
                                 (dig_cooldown (shovel_level (session w)))) MINING;
          particle_pool := particle_pool w;
          camera_y := camera_y w;
          session := session w;
          rng_pos := rng_pos w |}.
Proof.
  intros tx ty Hr Hc [Hk1 Hk2] Hd. unfold try_move. fold tx ty.
  case_decide; [|done]. unfold grid_get, getitem. rewrite Hc. cbn.
  destruct (Z_le_dec (d - 1) 0); [lia|]. by destruct k.
Qed.

Lemma try_move_destroy w dx dy k d :
  let tx := grid_x (ug_mole w) + dx in
  let ty := grid_y (ug_mole w) + dy in
  in_range tx ty →
  grid (terrain w) !! (tx, ty) = Some {| kind := k; durability := d |} →
  diggable k → d <= 1 →
  try_move rand w dx dy =
    let '(pool', cur') :=
      emit rand (particle_pool w)
           (inject_Z (tx * TILE_SIZE + 16)) (inject_Z (ty * TILE_SIZE + 16))
           (TILE_COLORS k) 8 (rng_pos w) in
    Ok {| terrain := set_grid (terrain w)
                       (<[(tx, ty) := {| kind := EMPTY; durability := d - 1 |}]> (grid (terrain w)));
          ug_mole := step_into (ug_mole w) tx ty dx dy;
          particle_pool := pool';
          camera_y := camera_y w;
          session := credit_ore (session w) k;
          rng_pos := cur' |}.
Proof.
  intros tx ty Hr Hc [Hk1 Hk2] Hd. unfold try_move. fold tx ty.
  case_decide; [|done]. unfold grid_get, getitem. rewrite Hc. cbn.
  destruct (Z_le_dec (d - 1) 0); [|lia]. by destruct k.
Qed.

(** What a successful attempt can have done to the grid. *)
Lemma try_move_grid w dx dy w' :
  try_move rand w dx dy = Ok w' →
  let pos := (grid_x (ug_mole w) + dx, grid_y (ug_mole w) + dy) in
  terrain w' = terrain w ∨
  ∃ k d,
    grid (terrain w) !! pos = Some {| kind := k; durability := d |} ∧ diggable k ∧
    highest_y_generated (terrain w') = highest_y_generated (terrain w) ∧
    grid (terrain w') =
      <[pos := {| kind := if Z_le_dec (d - 1) 0 then EMPTY else k;
                  durability := d - 1 |}]> (grid (terrain w)).
Proof.
  intros Hm pos.
  destruct (decide (in_range pos.1 pos.2)) as [Hr|Hr]; cbn in Hr.
  2:{ rewrite try_move_out_of_range in Hm by done. left. by injection Hm as <-. }
  destruct (grid (terrain w) !! pos) as [[k d]|] eqn:Hc.
  2:{ by rewrite try_move_unloaded in Hm. }
  destruct (decide (k = EMPTY)) as [->|Hk1].
  { rewrite (try_move_empty _ _ _ d) in Hm by done. left. by injection Hm as <-. }
  destruct (decide (k = ROCK)) as [->|Hk2].
  { rewrite (try_move_rock _ _ _ d) in Hm by done. left. by injection Hm as <-. }
  right. exists k, d. split; [done|]. split; [done|].
  destruct (Z_le_dec (d - 1) 0).
  - rewrite (try_move_destroy _ _ _ k d) in Hm by (done || lia).
    destruct (emit _ _ _ _ _ _ _). by injection Hm as <-.
  - rewrite (try_move_hit _ _ _ k d) in Hm by (done || lia).
    by injection Hm as <-.
Qed.

End Mining.

(** ** Input handling and the frame *)

Section Input.

Variable rand : nat -> Q.

Lemma read_direction_position m keys :
  grid_x (read_direction m keys).2 = grid_x m ∧
  grid_y (read_direction m keys).2 = grid_y m ∧
  can_move_timer (read_direction m keys).2 = can_move_timer m.
Proof.
  unfold read_direction.
  destruct (Z_le_dec _ _); [|done]. by repeat destruct (_ || _).
Qed.

Lemma aimed_mole_position w keys dt :
  grid_x (aimed_mole w keys dt) = grid_x (ug_mole w) ∧
  grid_y (aimed_mole w keys dt) = grid_y (ug_mole w).
Proof.
  unfold aimed_mole.
  destruct (read_direction_position
              (set_timer (ug_mole w) (can_move_timer (ug_mole w) - dt)) keys)
    as (-> & -> & _). done.
Qed.

Lemma underground_input_unfold w keys dt :
  underground_input rand w keys dt =
    let '(dx, dy) := requested_move w keys dt in
    let m := aimed_mole w keys dt in
    if decide (dx ≠ 0 ∨ dy ≠ 0) then try_move rand (set_mole w m) dx dy
    else if Z_le_dec (can_move_timer m) 0
         then Ok (set_mole (set_mole w m) (set_state m IDLE))
         else Ok (set_mole w m).
Proof.
  unfold underground_input, requested_move, aimed_mole.
  by destruct (read_direction _ _) as [[dx dy] m].
Qed.

(** An accepted directional input is one mining attempt. *)
Lemma underground_input_attempt w keys dt dx dy :
  requested_move w keys dt = (dx, dy) → dx ≠ 0 ∨ dy ≠ 0 →
  underground_input rand w keys dt
  = try_move rand (set_mole w (aimed_mole w keys dt)) dx dy.
Proof.
  intros Hreq Hd. rewrite underground_input_unfold, Hreq. by case_decide.
Qed.

Lemma process_animation_position m dt :
  grid_x (process_animation m dt) = grid_x m ∧
  grid_y (process_animation m dt) = grid_y m ∧
  state (process_animation m dt) = state m.
Proof. unfold process_animation. by destruct (Z_lt_dec _ _). Qed.

Lemma underground_follow_fields w dt :
  ug_mole (underground_follow rand w dt) = process_animation (ug_mole w) dt ∧
  session (underground_follow rand w dt) = session w ∧
  particle_pool (underground_follow rand w dt) = particle_pool w ∧
  terrain (underground_follow rand w dt)
    = (ensure_generated rand (terrain w)
         (lookahead_row (camera_follow
            (camera_target (grid_y (process_animation (ug_mole w) dt))) (camera_y w)))
         (rng_pos w)).1.
Proof.
  unfold underground_follow. by destruct (ensure_generated _ _ _ _).
Qed.

End Input.

(** ** Inventory credits *)

Lemma credit_ore_count s c c' :
  inventory_ok s →
  ore_count (credit_ore s c) c'
  = ore_count s c' + (if decide (c' = c ∧ is_ore c = true) then 1 else 0).
Proof.
  intros Hok. unfold ore_count, credit_ore.
  destruct (inventory s !! c) as [n|] eqn:Hc.
  - assert (is_ore c = true) as Hore by (apply Hok; eauto).
    cbn. destruct (decide (c' = c)) as [->|Hne].
    + rewrite lookup_insert_eq, Hc. cbn. by rewrite decide_True.
    + rewrite lookup_insert_ne by done. rewrite decide_False; [lia|]. by intros [? _].
  - case_decide as Hd; [|lia]. destruct Hd as [_ Hore].
    apply Hok in Hore. rewrite Hc in Hore. by destruct Hore.
Qed.

Lemma credit_ore_no_slot s c : inventory s !! c = None → credit_ore s c = s.
Proof. intros H. unfold credit_ore. by rewrite H. Qed.

Lemma inventory_ok_no_slot s c : inventory_ok s → is_ore c = false → inventory s !! c = None.
Proof.
  intros Hok Hc. destruct (inventory s !! c) eqn:E; [|done].
  assert (is_ore c = true) by (apply Hok; eauto). congruence.
Qed.

(** ** Repeated hits on one cell *)

Section Hits.

Variable rand : nat -> Q.



End Hits.

Lemma GameSession_init_inventory_ok : inventory_ok GameSession_init.
Proof. intros []; split; intros H; try done; try by destruct H. all: by eexists. Qed.

(** ** Hits delivered by whole frames *)

Section Frames.

Variable rand : nat -> Q.

Lemma sample_row_other_row g cy ws cur a b :
  b ≠ cy → (sample_row rand g cy ws cur).1 !! (a, b) = g !! (a, b).
Proof.
  intros Hb. unfold sample_row. generalize columns. intros l.
  revert g cur. induction l as [|h l IH]; intros g cur; cbn [foldl]; [done|].
  rewrite IH. apply lookup_insert_ne. by intros [= _ ->].
Qed.

(** A row whose first column exists is left alone by [generate_row]. *)
Lemma generate_row_keeps_row t cy0 cur a b :
  is_Some (grid t !! (0, b)) →
  grid (generate_row rand t cy0 cur).1 !! (a, b) = grid t !! (a, b).
Proof.
  intros Hrow. unfold generate_row.
  destruct (decide (is_Some (grid t !! (0, cy0)))) as [|Hnew]; [done|].
  assert (b ≠ cy0) as Hb by (by intros ->).
  destruct (Z_lt_dec cy0 10); cbn.
  - rewrite fill_dirt_lookup. rewrite decide_False; [done|]. by intros [? _].
  - pose proof (sample_row_other_row (grid t) cy0 (row_weights cy0) cur a b Hb) as Hs.
    by destruct (sample_row rand (grid t) cy0 (row_weights cy0) cur).
Qed.

Lemma generate_rows_keep_row l t cur a b :
  is_Some (grid t !! (0, b)) →
  grid (foldl (λ '(t, cur) cy, generate_row rand t cy cur) (t, cur) l).1 !! (a, b)
  = grid t !! (a, b).
Proof.
  revert t cur. induction l as [|h l IH]; intros t cur Hrow; cbn [foldl]; [done|].
  pose proof (generate_row_keeps_row t h cur a b Hrow) as Ha.
  pose proof (generate_row_keeps_row t h cur 0 b Hrow) as H0.
  destruct (generate_row rand t h cur) as [t1 cur1]. cbn in Ha, H0.
  rewrite IH; [done|]. by rewrite H0.
Qed.

Lemma ensure_generated_keeps_row t target cur a b :
  is_Some (grid t !! (0, b)) →
  grid (ensure_generated rand t target cur).1 !! (a, b) = grid t !! (a, b).
Proof.
  intros Hrow. unfold ensure_generated. destruct (Z_lt_dec _ _); [|done].
  pose proof (generate_rows_keep_row
    (seqZ (highest_y_generated t + 1) (target - highest_y_generated t)) t cur a b Hrow) as H.
  by destruct (foldl _ _ _).
Qed.







End Frames.



Lemma next_world_ok w keys dt :
  is_ok (underground_frame zero_stream w keys dt) = true →
  underground_frame zero_stream w keys dt = Ok (next_world w keys dt).
Proof. unfold next_world. by destruct (underground_frame zero_stream w keys dt). Qed.

(** The same scenario through whole frames: a hit, an idle frame while
    the cooldown runs, and two more hits. *)
Example bronze_dug_in_three_frames :
  let w1 := next_world bronze_world key_down 16 in
  let w2 := next_world w1 key_down 16 in
  let w3 := next_world w2 key_down 250 in
  let w4 := next_world w3 key_down 250 in
  dug zero_stream 0 1 3 bronze_world w4 /\
  grid (terrain w4) !! (10, 6) = Some {| kind := EMPTY; durability := 0 |} /\
  ore_count (session w4) BRONZE = 1.
Proof.
  intros w1 w2 w3 w4. split; [|by vm_compute].
  apply (dug_hit _ _ _ _ _ key_down 16 w1);
    [by vm_compute | apply next_world_ok; by vm_compute |].
  apply (dug_wait _ _ _ _ _ key_down 16 w2);
    [by vm_compute | apply next_world_ok; by vm_compute |].
  apply (dug_hit _ _ _ _ _ key_down 250 w3);
    [by vm_compute | apply next_world_ok; by vm_compute |].
  apply (dug_hit _ _ _ _ _ key_down 250 w4);
    [by vm_compute | apply next_world_ok; by vm_compute |].
  apply dug_done.
Qed.


(** ** Rock *)

Section Rock.

Variable rand : nat -> Q.

Lemma hits_rock w dx dy d (n : nat) :
  let tx := grid_x (ug_mole w) + dx in
  let ty := grid_y (ug_mole w) + dy in
  grid (terrain w) !! (tx, ty) = Some {| kind := ROCK; durability := d |} →
  ∃ w', hits rand n w dx dy = Ok w' ∧
    terrain w' = terrain w ∧
    grid_x (ug_mole w') = grid_x (ug_mole w) ∧
    grid_y (ug_mole w') = grid_y (ug_mole w) ∧
    session w' = session w ∧
    particle_pool w' = particle_pool w ∧
    ((1 <= n)%nat → state (ug_mole w') = IDLE).
Proof.
  intros tx ty Hcell. induction n as [|n IH].
  - exists w. cbn [hits]. repeat split; try done. lia.
  - destruct IH as (w1 & Hh & Ht & Hx & Hy & Hs & Hp & _).
    cbn [hits]. rewrite Hh. cbn.
    rewrite (try_move_rock rand w1 dx dy d) by (by rewrite Ht, Hx, Hy).
    eexists. split; [done|]. by cbn.
Qed.

(** No attempt, whatever its direction, changes a Rock cell. *)
Lemma try_move_keeps_rock w dx dy w' pos d :
  try_move rand w dx dy = Ok w' →
  grid (terrain w) !! pos = Some {| kind := ROCK; durability := d |} →
  grid (terrain w') !! pos = Some {| kind := ROCK; durability := d |}.
Proof.
  intros Hm Hcell.
  destruct (try_move_grid rand w dx dy w' Hm) as [->|(k & d' & Hc & [_ Hk] & _ & ->)]; [done|].
  rewrite lookup_insert_ne; [done|]. intros <-. congruence.
Qed.

Lemma underground_input_keeps_rock w keys dt w' pos d :
  underground_input rand w keys dt = Ok w' →
  grid (terrain w) !! pos = Some {| kind := ROCK; durability := d |} →
  grid (terrain w') !! pos = Some {| kind := ROCK; durability := d |}.
Proof.
  unfold underground_input. intros Hm Hcell.
  destruct (read_direction _ _) as [[dx dy] m].
  case_decide.
  - by eapply try_move_keeps_rock.
  - destruct (Z_le_dec _ _); by injection Hm as <-.
Qed.

End Rock.

(** C5: a Rock cell is never damaged and never destroyed, however often
    it is hit: the terrain, the inventory and the particle pool stay as
    they were; the actor that tries to move into it keeps its position and
    is Idle afterwards, also at the end of the whole frame. *)
Theorem rock_is_never_mined (rand : nat -> Q) (w : World) (dx dy d : Z) (n : nat)
    (keys : Keys) (dt : Z) :
  let tx := grid_x (ug_mole w) + dx in
  let ty := grid_y (ug_mole w) + dy in
  grid (terrain w) !! (tx, ty) = Some {| kind := ROCK; durability := d |} ->
  (exists w', hits rand n w dx dy = Ok w' /\
     terrain w' = terrain w /\
     grid_x (ug_mole w') = grid_x (ug_mole w) /\
     grid_y (ug_mole w') = grid_y (ug_mole w) /\
     session w' = session w /\
     particle_pool w' = particle_pool w /\
     ((1 <= n)%nat -> state (ug_mole w') = IDLE)) /\
  (forall w', underground_input rand w keys dt = Ok w' ->
     grid (terrain w') !! (tx, ty) = Some {| kind := ROCK; durability := d |}) /\
  (requested_move w keys dt = (dx, dy) -> dx <> 0 \/ dy <> 0 ->
     exists w', underground_frame rand w keys dt = Ok w' /\
       grid_x (ug_mole w') = grid_x (ug_mole w) /\
       grid_y (ug_mole w') = grid_y (ug_mole w) /\
       state (ug_mole w') = IDLE /\
       session w' = session w).
Proof.
  intros tx ty Hcell. split; [exact (hits_rock rand w dx dy d n Hcell)|]. split.
  - intros w' Hm.
    exact (underground_input_keeps_rock rand w keys dt w' (tx, ty) d Hm Hcell).
  - intros Hreq Hd. unfold underground_frame, underground_update.
    rewrite (underground_input_attempt rand w keys dt dx dy Hreq Hd).
    destruct (aimed_mole_position w keys dt) as [Hx Hy].
    rewrite (try_move_rock rand _ dx dy d) by (cbn; by rewrite Hx, Hy).
    cbn. eexists. split; [done|].
    cbn [render_particles terrain ug_mole session particle_pool].
    destruct (underground_follow_fields rand
                (set_mole (set_mole w (aimed_mole w keys dt))
                          (set_state (aimed_mole w keys dt) IDLE)) dt)
      as (-> & -> & _).
    cbn [set_mole ug_mole session].
    destruct (process_animation_position (set_state (aimed_mole w keys dt) IDLE) dt)
      as (-> & -> & ->).
    by cbn.
Qed.

Lemma rock_is_never_mined_witness :
  exists w',
    underground_frame zero_stream
      rock_world
      key_down 16 = Ok w' /\
    grid_x (ug_mole w') = 10 /\ grid_y (ug_mole w') = 5 /\ state (ug_mole w') = IDLE.
Proof.
  destruct (rock_is_never_mined zero_stream
              rock_world
              0 1 9999 5 key_down 16) as (_ & _ & H).
  - by vm_compute.
  - destruct H as (w' & H1 & H2 & H3 & H4 & _).
    + by vm_compute.
    + right. lia.
    + exists w'. split; [exact H1|]. split; [exact H2|]. split; [exact H3 | exact H4].
Defined.

(** ** Tiles without an inventory slot *)

(** C10: when the destroyed tile's kind has no inventory slot, the
    destruction still empties the cell, moves the actor into it and emits
    particles, and the session (inventory included) is left as it was; the
    inventory has slots for Bronze, Silver, Gold and Diamond only, so that
    is what happens for every Dirt tile, also over the whole frame. *)
Theorem destroying_unlisted_kind_gives_no_credit (rand : nat -> Q) (w : World)
    (dx dy : Z) (k : TileKind) (keys : Keys) (dt : Z) :
  let tx := grid_x (ug_mole w) + dx in
  let ty := grid_y (ug_mole w) + dy in
  in_range tx ty -> diggable k ->
  grid (terrain w) !! (tx, ty) = Some {| kind := k; durability := 1 |} ->
  inventory (session w) !! k = None ->
  (exists w', try_move rand w dx dy = Ok w' /\
     grid (terrain w') !! (tx, ty) = Some {| kind := EMPTY; durability := 0 |} /\
     grid_x (ug_mole w') = tx /\ grid_y (ug_mole w') = ty /\
     particle_pool w'
       = (emit rand (particle_pool w)
            (inject_Z (tx * TILE_SIZE + 16)) (inject_Z (ty * TILE_SIZE + 16))
            (TILE_COLORS k) 8 (rng_pos w)).1 /\
     count_active (particle_pool w')
       = (count_active (particle_pool w) + Nat.min 8 (count_free (particle_pool w)))%nat /\
     session w' = session w) /\
  (requested_move w keys dt = (dx, dy) -> dx <> 0 \/ dy <> 0 ->
     exists w', underground_frame rand w keys dt = Ok w' /\
       grid_x (ug_mole w') = tx /\ grid_y (ug_mole w') = ty /\
       session w' = session w) /\
  (inventory_ok (session w) -> k = DIRT) /\
  inventory GameSession_init !! DIRT = None.
Proof.
  intros tx ty Hr Hk Hcell Hinv.
  assert (Hmove : forall w0, terrain w0 = terrain w -> session w0 = session w ->
            particle_pool w0 = particle_pool w -> rng_pos w0 = rng_pos w ->
            grid_x (ug_mole w0) = grid_x (ug_mole w) ->
            grid_y (ug_mole w0) = grid_y (ug_mole w) ->
            exists w', try_move rand w0 dx dy = Ok w' /\
              grid (terrain w') !! (tx, ty) = Some {| kind := EMPTY; durability := 0 |} /\
              grid_x (ug_mole w') = tx /\ grid_y (ug_mole w') = ty /\
              particle_pool w'
                = (emit rand (particle_pool w)
                     (inject_Z (tx * TILE_SIZE + 16)) (inject_Z (ty * TILE_SIZE + 16))
                     (TILE_COLORS k) 8 (rng_pos w)).1 /\
              session w' = session w).
  { intros w0 Ht Hs Hp Hg Hx Hy.
    rewrite (try_move_destroy rand w0 dx dy k 1); rewrite ?Hx, ?Hy, ?Ht; try done.
    fold tx ty. rewrite Hp, Hg, Hs.
    destruct (emit _ _ _ _ _ _ _) as [pool' cur']. eexists. split; [done|]. cbn.
    rewrite lookup_insert_eq. repeat split; try done.
    by apply credit_ore_no_slot. }
  split; [|split; [|split]].
  - destruct (Hmove w) as (w' & H1 & H2 & H3 & H4 & H5 & H6); try done.
    exists w'. repeat split; try done.
    rewrite H5. unfold emit. by rewrite emit_loop_count.
  - intros Hreq Hd. unfold underground_frame, underground_update.
    rewrite (underground_input_attempt rand w keys dt dx dy Hreq Hd).
    destruct (aimed_mole_position w keys dt) as [Hx Hy].
    destruct (Hmove (set_mole w (aimed_mole w keys dt)))
      as (w' & -> & H2 & H3 & H4 & H5 & H6); try done.
    cbn. eexists. split; [done|].
    cbn [render_particles terrain ug_mole session particle_pool].
    destruct (underground_follow_fields rand w' dt) as (-> & -> & _).
    destruct (process_animation_position (ug_mole w') dt) as (-> & -> & _).
    done.
  - intros Hok. destruct Hk as [Hk1 Hk2].
    destruct k; try done; exfalso.
    all: match type of Hinv with
         | _ !! ?c = None =>
             assert (is_Some (inventory (session w) !! c)) as [? Hs] by (by apply Hok)
         end; congruence.
  - by vm_compute.
Qed.

Lemma destroying_unlisted_kind_gives_no_credit_witness :
  exists w',
    underground_frame zero_stream (init_world zero_stream) key_down 16 = Ok w' /\
    grid_x (ug_mole w') = 10 /\ grid_y (ug_mole w') = 6 /\
    session w' = session (init_world zero_stream).
Proof.
  destruct (destroying_unlisted_kind_gives_no_credit zero_stream (init_world zero_stream)
              0 1 DIRT key_down 16) as (_ & H & _).
  - by vm_compute.
  - by split.
  - by vm_compute.
  - by vm_compute.
  - apply H; [by vm_compute | right; lia].
Defined.

(** ** Cells that were never generated *)


(** What the fallback does not cover: line 435 reads the target with the
    Dirt default, line 442 subscripts the same key without one. In a
    world whose actor stands on the last generated row (which play never
    produces, see [frontier_world_unreachable]) the lookup falls back to
    Dirt and the subscript raises [KeyError]. *)
Lemma unguarded_subscript_on_frontier :
  in_range 10 21 /\
  grid (terrain frontier_world) !! (10, 21) = None /\
  grid_get (grid (terrain frontier_world)) 10 21 = default_cell /\
  (10, 21, default_cell) ∈ draw_tiles (grid (terrain frontier_world)) 320 /\
  try_move zero_stream frontier_world 0 1 = KeyError /\
  underground_frame zero_stream frontier_world key_down 16 = KeyError.
Proof.
  split; [by vm_compute|]. split; [by vm_compute|]. split; [by vm_compute|].
  split; [|by vm_compute].
  apply list_elem_of_In. vm_compute. tauto.
Qed.

(** ** The durability invariant *)

Lemma generated_cell_ok c : generated c → cell_ok c.
Proof.
  destruct c as [k d]. intros [Hk Hd]. cbn in *. subst d.
  unfold cell_ok. by destruct k.
Qed.

Lemma cell_ok_bounds c : cell_ok c → 0 <= durability c <= DURABILITY_get (kind c).
Proof.
  destruct c as [k d]. unfold cell_ok. cbn.
  destruct k; cbn; lia.
Qed.

Lemma cell_ok_empty c : cell_ok c → (kind c = EMPTY ↔ durability c = 0).
Proof.
  destruct c as [k d]. unfold cell_ok. cbn.
  destruct k; cbn; split; intros; try done; lia.
Qed.

Lemma gen_ext_cells_ok g g' :
  gen_ext g g' →
  map_Forall (λ _ c, cell_ok c) g → map_Forall (λ _ c, cell_ok c) g'.
Proof.
  intros Hext Hok pos c Hc.
  destruct (Hext pos c Hc) as [Hold|Hgen]; [by eapply Hok | by apply generated_cell_ok].
Qed.

Lemma credit_ore_inventory_ok s k : inventory_ok s → inventory_ok (credit_ore s k).
Proof.
  intros Hok. unfold credit_ore.
  destruct (inventory s !! k) as [n|] eqn:Hk; [|done].
  intros k'. cbn. destruct (decide (k = k')) as [<-|Hne].
  - rewrite lookup_insert_eq. split; [intros _; apply Hok; eauto | eauto].
  - rewrite lookup_insert_ne by done. apply Hok.
Qed.

Lemma sell_all_inventory_ok s : inventory_ok s → inventory_ok (sell_all s).
Proof.
  intros Hok k. unfold sell_all. cbn. rewrite lookup_fmap. split.
  - intros [v Hv]. apply Hok. destruct (inventory s !! k); [eauto | done].
  - intros Hore. apply Hok in Hore as [v Hv]. rewrite Hv. by eexists.
Qed.

Lemma buy_shovel_inventory_ok s : inventory_ok s → inventory_ok (buy_shovel s).
Proof. intros Hok. unfold buy_shovel. by destruct (Z_le_dec _ _). Qed.

Section Invariant.

Variable rand : nat -> Q.

Lemma try_move_world_ok w dx dy w' :
  try_move rand w dx dy = Ok w' → world_ok w → world_ok w'.
Proof.
  intros Hm (Hg & Hi & Hp).
  set (pos := (grid_x (ug_mole w) + dx, grid_y (ug_mole w) + dy)).
  destruct (decide (in_range pos.1 pos.2)) as [Hr|Hr]; cbn in Hr.
  2:{ rewrite try_move_out_of_range in Hm by done. by injection Hm as <-. }
  destruct (grid (terrain w) !! pos) as [[k d]|] eqn:Hc.
  2:{ by rewrite try_move_unloaded in Hm. }
  destruct (decide (k = EMPTY)) as [->|Hk1].
  { rewrite (try_move_empty _ _ _ _ d) in Hm by done. by injection Hm as <-. }
  destruct (decide (k = ROCK)) as [->|Hk2].
  { rewrite (try_move_rock _ _ _ _ d) in Hm by done. by injection Hm as <-. }
  pose proof (Hg pos _ Hc) as Hcell. unfold cell_ok in Hcell. cbn in Hcell.
  destruct (Z_le_dec d 1).
  - rewrite (try_move_destroy _ _ _ _ k d) in Hm by done.
    pose proof (emit_loop_length rand (particle_pool w)
                  (inject_Z (pos.1 * TILE_SIZE + 16)) (inject_Z (pos.2 * TILE_SIZE + 16))
                  (TILE_COLORS k) 8 0 (rng_pos w)) as Hlen.
    unfold emit in Hm. cbn in Hlen.
    destruct (emit_loop _ _ _ _ _ _ _ _) as [pool' cur']. injection Hm as <-.
    split; [|split]; cbn.
    + apply map_Forall_insert_2; [|done]. unfold cell_ok. cbn. destruct k; try done; lia.
    + by apply credit_ore_inventory_ok.
    + cbn in Hlen. congruence.
  - rewrite (try_move_hit _ _ _ _ k d) in Hm by (done || lia). injection Hm as <-.
    split; [|done]. cbn.
    apply map_Forall_insert_2; [|done]. unfold cell_ok. cbn. destruct k; try done; lia.
Qed.

Lemma underground_input_world_ok w keys dt w' :
  underground_input rand w keys dt = Ok w' → world_ok w → world_ok w'.
Proof.
  rewrite underground_input_unfold.
  destruct (requested_move w keys dt) as [dx dy]. cbv zeta.
  intros Hm Hok. case_decide.
  - eapply try_move_world_ok; [exact Hm|]. exact Hok.
  - destruct (Z_le_dec _ _); by injection Hm as <-.
Qed.

Lemma underground_follow_world_ok w dt :
  world_ok w → world_ok (underground_follow rand w dt).
Proof.
  intros (Hg & Hi & Hp).
  destruct (underground_follow_fields rand w dt) as (_ & Hs & Hpool & Ht).
  unfold world_ok. rewrite Hs, Hpool, Ht. split; [|done].
  eapply gen_ext_cells_ok; [apply ensure_generated_gen_ext | done].
Qed.

Lemma underground_update_world_ok w keys dt w' :
  underground_update rand w keys dt = Ok w' → world_ok w → world_ok w'.
Proof.
  unfold underground_update. intros Hm Hok.
  destruct (underground_input rand w keys dt) as [w1|] eqn:Hin; [|done].
  cbn in Hm. injection Hm as <-.
  apply (underground_input_world_ok _ _ _ _ Hin) in Hok.
  by apply underground_follow_world_ok.
Qed.

Lemma render_particles_world_ok w : world_ok w → world_ok (render_particles w).
Proof.
  intros (Hg & Hi & Hp). split; [done|]. split; [done|]. cbn.
  by rewrite update_and_draw_length.
Qed.

Lemma underground_frame_world_ok w keys dt w' :
  underground_frame rand w keys dt = Ok w' → world_ok w → world_ok w'.
Proof.
  unfold underground_frame. intros Hm Hok.
  destruct (underground_update rand w keys dt) as [w2|] eqn:Hup; [|done].
  cbn in Hm. injection Hm as <-.
  apply render_particles_world_ok. by eapply underground_update_world_ok.
Qed.

Lemma run_op_world_ok o w w' :
  run_op rand o w = Ok w' → world_ok w → world_ok w'.
Proof.
  destruct o; cbn [run_op]; intros Hm (Hg & Hi & Hp).
  - by eapply underground_frame_world_ok.
  - by eapply underground_update_world_ok.
  - injection Hm as <-. by apply render_particles_world_ok.
  - injection Hm as <-. split; [done|]. split; [|done]. by apply sell_all_inventory_ok.
  - injection Hm as <-. split; [done|]. split; [|done]. by apply buy_shovel_inventory_ok.
  - by injection Hm as <-.
  - by injection Hm as <-.
Qed.

Lemma boot_world_fields :
  terrain (boot_world rand) = (ensure_generated rand Terrain_init (ROWS + 5) O).1 ∧
  ug_mole (boot_world rand) = GridMole_init (COLS / 2) 5 ∧
  particle_pool (boot_world rand) = ParticlePool_init POOL_SIZE ∧
  session (boot_world rand) = GameSession_init.
Proof. unfold boot_world. by destruct (ensure_generated _ _ _ _). Qed.

Lemma boot_world_generated pos c :
  grid (terrain (boot_world rand)) !! pos = Some c → generated c.
Proof.
  destruct boot_world_fields as (-> & _). intros Hc.
  destruct (ensure_generated_gen_ext rand Terrain_init (ROWS + 5) O pos c Hc) as [H|H];
    [cbn in H; by rewrite lookup_empty in H | done].
Qed.

Lemma init_world_ok : world_ok (init_world rand).
Proof.
  unfold init_world, carve_spawn, world_ok. cbn.
  destruct boot_world_fields as (_ & _ & -> & ->).
  split; [|split].
  - apply map_Forall_insert_2; [done|].
    intros pos c Hc. by apply generated_cell_ok, (boot_world_generated pos).
  - apply GameSession_init_inventory_ok.
  - apply ParticlePool_init_length.
Qed.

Lemma reachable_world_ok w : reachable rand w → world_ok w.
Proof.
  induction 1 as [|w o w' _ IH Hrun]; [apply init_world_ok|].
  by eapply run_op_world_ok.
Qed.

(** The update pipeline empties a cell only by mining it out. *)
Lemma underground_update_emptied w keys dt w' pos c' :
  world_ok w →
  underground_update rand w keys dt = Ok w' →
  grid (terrain w') !! pos = Some c' → kind c' = EMPTY →
  grid (terrain w) !! pos = Some c' ∨
  ∃ c, pos = dig_target w keys dt ∧ requested_move w keys dt ≠ (0, 0) ∧
       grid (terrain w) !! pos = Some c ∧ diggable (kind c) ∧
       durability c = 1 ∧ durability c' = 0.
Proof.
  intros (Hg & _ & _) Hm Hc' Hk'. unfold underground_update in Hm.
  destruct (underground_input rand w keys dt) as [w1|] eqn:Hin; [|done].
  cbn in Hm. injection Hm as <-. cbn in Hc'.
  destruct (underground_follow_fields rand w1 dt) as (_ & _ & _ & Ht).
  rewrite Ht in Hc'.
  destruct (ensure_generated_gen_ext rand _ _ _ pos c' Hc') as [Hc1|[Hgen _]]; [|done].
  clear Hc' Ht. rewrite underground_input_unfold in Hin.
  unfold dig_target.
  destruct (requested_move w keys dt) as [dx dy]. cbv zeta in Hin. cbn [fst snd].
  destruct (aimed_mole_position w keys dt) as [Hx Hy].
  case_decide as Hd.
  - destruct (try_move_grid rand _ dx dy w1 Hin) as [Hsame|(k & d & Hc & Hdig & _ & Hgrid)].
    + left. by rewrite Hsame in Hc1.
    + cbn in Hc, Hgrid. rewrite Hx, Hy in Hc, Hgrid. rewrite Hgrid in Hc1.
      destruct (decide ((grid_x (ug_mole w) + dx, grid_y (ug_mole w) + dy) = pos))
        as [<-|Hne].
      * rewrite lookup_insert_eq in Hc1. injection Hc1 as <-. cbn in Hk'.
        destruct (Z_le_dec (d - 1) 0); [|by destruct Hdig].
        pose proof (Hg _ _ Hc) as Hcell. unfold cell_ok in Hcell. cbn in Hcell.
        right. exists {| kind := k; durability := d |}.
        assert (1 <= d) by (destruct Hdig; destruct k; try done; lia).
        repeat split; try done; cbn; try lia; try apply Hdig.
        intros [= -> ->]. lia.
      * rewrite lookup_insert_ne in Hc1 by done. by left.
  - left. destruct (Z_le_dec _ _); by injection Hin as <-.
Qed.

End Invariant.

(** The pool keeps its 256 slots in every reachable world, so no more
    than 256 particles are ever active at once. *)
Lemma reachable_pool_capacity rand w :
  reachable rand w →
  length (particle_pool w) = 256%nat ∧ (count_active (particle_pool w) <= 256)%nat.
Proof.
  intros Hreach. destruct (reachable_world_ok rand w Hreach) as (_ & _ & Hlen).
  split; [exact Hlen|]. change 256%nat with POOL_SIZE. rewrite <- Hlen.
  apply count_active_le_length.
Qed.

(** C4, as the code has it: in every world the game can reach, the
    durability of every cell lies in [[0, maxDurability(kind)]]; after
    start-up a cell turns Empty only when a mining hit takes its last point
    of durability (and every such hit does empty it), the shop and the
    torch leave the terrain alone; the one cell that is Empty without
    having been mined is the spawn cell, which start-up overwrites with
    [[EMPTY, 0]] after every generated cell had its full durability. *)
Theorem durability_bounds_and_emptying (rand : nat -> Q) (w : World) :
  reachable rand w ->
  (forall pos c, grid (terrain w) !! pos = Some c ->
     0 <= durability c <= DURABILITY_get (kind c) /\
     (kind c = EMPTY <-> durability c = 0)) /\
  (forall o w' pos c',
     run_op rand o w = Ok w' ->
     grid (terrain w') !! pos = Some c' -> kind c' = EMPTY ->
     grid (terrain w) !! pos = Some c' \/
     exists keys dt c,
       (o = OpFrame keys dt \/ o = OpLeaveFrame keys dt) /\
       pos = dig_target w keys dt /\
       requested_move w keys dt <> (0, 0) /\
       grid (terrain w) !! pos = Some c /\ diggable (kind c) /\
       durability c = 1 /\ durability c' = 0) /\
  (forall dx dy k,
     in_range (grid_x (ug_mole w) + dx) (grid_y (ug_mole w) + dy) -> diggable k ->
     grid (terrain w) !! (grid_x (ug_mole w) + dx, grid_y (ug_mole w) + dy)
       = Some {| kind := k; durability := 1 |} ->
     exists w', try_move rand w dx dy = Ok w' /\
       grid (terrain w') !! (grid_x (ug_mole w) + dx, grid_y (ug_mole w) + dy)
         = Some {| kind := EMPTY; durability := 0 |}) /\
  grid (terrain (init_world rand))
    = <[(COLS / 2, 5) := {| kind := EMPTY; durability := 0 |}]>
        (grid (terrain (boot_world rand))) /\
  (forall pos c, grid (terrain (boot_world rand)) !! pos = Some c ->
     kind c <> EMPTY /\ durability c = DURABILITY_get (kind c)).
Proof.
  intros Hreach. pose proof (reachable_world_ok rand w Hreach) as Hok.
  split; [|split; [|split; [|split]]].
  - intros pos c Hc. pose proof (proj1 Hok pos c Hc) as Hcell.
    split; [by apply cell_ok_bounds | by apply cell_ok_empty].
  - intros o w' pos c' Hrun Hc' Hk'. destruct o; cbn [run_op] in Hrun.
    + unfold underground_frame in Hrun.
      destruct (underground_update rand w keys dt) as [w2|] eqn:Hup; [|done].
      cbn in Hrun. injection Hrun as <-. cbn in Hc'.
      destruct (underground_update_emptied rand w keys dt w2 pos c' Hok Hup Hc' Hk')
        as [Hold|(c & H1 & H2 & H3 & H4 & H5 & H6)]; [by left|].
      right. exists keys, dt, c. repeat split; try done; try apply H4. by left.
    + destruct (underground_update_emptied rand w keys dt w' pos c' Hok Hrun Hc' Hk')
        as [Hold|(c & H1 & H2 & H3 & H4 & H5 & H6)]; [by left|].
      right. exists keys, dt, c. repeat split; try done; try apply H4. by right.
    + left. by injection Hrun as <-.
    + left. by injection Hrun as <-.
    + left. by injection Hrun as <-.
    + left. by injection Hrun as <-.
    + left. by injection Hrun as <-.
  - intros dx dy k Hr Hk Hc.
    rewrite (try_move_destroy rand w dx dy k 1) by done.
    destruct (emit _ _ _ _ _ _ _) as [pool' cur']. eexists. split; [done|]. cbn.
    by rewrite lookup_insert_eq.
  - unfold init_world, carve_spawn. cbn.
    by destruct (boot_world_fields rand) as (_ & -> & _).
  - intros pos c Hc. by apply (boot_world_generated rand pos).
Qed.

Lemma durability_bounds_and_emptying_witness :
  grid (terrain (init_world zero_stream)) !! (10, 6)
    = Some {| kind := DIRT; durability := 1 |} /\
  0 <= durability {| kind := DIRT; durability := 1 |} <= DURABILITY_get DIRT.
Proof.
  split; [by vm_compute|].
  apply (proj1 (durability_bounds_and_emptying zero_stream (init_world zero_stream)
                  (reachable_init zero_stream)) (10, 6)
               {| kind := DIRT; durability := 1 |}).
  by vm_compute.
Defined.

(** C4, as stated, fails at start-up: line 320 assigns [[EMPTY, 0]] to
    the spawn cell, a Dirt cell at full durability that nobody mined. *)
Lemma spawn_cell_emptied_by_assignment :
  ~ (forall pos c c',
       grid (terrain (boot_world zero_stream)) !! pos = Some c ->
       grid (terrain (carve_spawn (boot_world zero_stream))) !! pos = Some c' ->
       kind c' = EMPTY -> kind c = EMPTY).
Proof.
  intros H.
  specialize (H (10, 5) {| kind := DIRT; durability := 1 |}
                {| kind := EMPTY; durability := 0 |}).
  discriminate H; by vm_compute.
Qed.

(** * Further properties of the code *)

(** ** Terrain generation *)

Section GenerationRows.

Variable rand : nat -> Q.

Lemma sample_row_dom g cy ws cur a b :
  is_Some ((sample_row rand g cy ws cur).1 !! (a, b))
  ↔ is_Some (g !! (a, b)) ∨ (b = cy ∧ 0 <= a < COLS).
Proof.
  unfold sample_row.
  assert (Hl : ∀ (l : list Z) (g : gmap (Z * Z) TileCell) (cur : nat),
    is_Some ((foldl (λ '(g, cur) cx, (<[(cx, cy) := sample_cell rand ws cur]> g, S cur))
                    (g, cur) l).1 !! (a, b))
    ↔ is_Some (g !! (a, b)) ∨ (b = cy ∧ a ∈ l)).
  { induction l as [|h l IH]; intros g0 cur0; cbn [foldl].
    - split; [by left|]. intros [H|[_ H]]; [done|]. by apply elem_of_nil in H.
    - rewrite IH. rewrite elem_of_cons.
      destruct (decide ((h, cy) = (a, b))) as [Heq|Hne].
      + injection Heq as -> ->. rewrite lookup_insert_eq. split.
        * intros _. right. split; [done|]. by left.
        * intros _. left. by eexists.
      + rewrite lookup_insert_ne by done. split.
        * intros [H|[Hb Hin]]; [by left|]. right. split; [done|]. by right.
        * intros [H|[Hb [Ha|Hin]]]; [by left | by subst | right; by split]. }
  rewrite Hl. unfold columns. rewrite elem_of_seqZ. split.
  - intros [H|[Hb Ha]]; [by left|]. right. split; [done|]. lia.
  - intros [H|[Hb Ha]]; [by left|]. right. split; [done|]. lia.
Qed.

Lemma sample_row_cursor g cy ws cur :
  (sample_row rand g cy ws cur).2 = (cur + Z.to_nat COLS)%nat.
Proof.
  unfold sample_row, columns.
  assert (Hl : ∀ (l : list Z) (g : gmap (Z * Z) TileCell) (cur : nat),
    (foldl (λ '(g, cur) cx, (<[(cx, cy) := sample_cell rand ws cur]> g, S cur))
           (g, cur) l).2 = (cur + length l)%nat).
  { induction l as [|h l IH]; intros g0 cur0; cbn [foldl length]; [cbn; lia|].
    rewrite IH. lia. }
  rewrite Hl, length_seqZ. done.
Qed.

Lemma generate_row_dom t cy cur a b :
  is_Some (grid (generate_row rand t cy cur).1 !! (a, b))
  ↔ is_Some (grid t !! (a, b))
    ∨ (grid t !! (0, cy) = None ∧ b = cy ∧ 0 <= a < COLS).
Proof.
  unfold generate_row.
  destruct (decide (is_Some (grid t !! (0, cy)))) as [Hrow|Hnew].
  - split; [by left|]. intros [H|[Hn _]]; [done|].
    rewrite Hn in Hrow. by destruct Hrow.
  - assert (grid t !! (0, cy) = None) as Hn.
    { destruct (grid t !! (0, cy)) eqn:E; [|done]. exfalso. apply Hnew. by eexists. }
    destruct (Z_lt_dec cy 10); cbn.
    + rewrite fill_dirt_lookup. destruct (decide (b = cy ∧ 0 <= a < COLS)) as [Hd|Hd].
      * split; [|by eexists]. intros _. right. by destruct Hd.
      * split; [by left|]. intros [H|(_ & Hb & Ha)]; [done|]. exfalso. by apply Hd.
    + pose proof (sample_row_dom (grid t) cy (row_weights cy) cur a b) as Hs.
      destruct (sample_row rand (grid t) cy (row_weights cy) cur) as [g1 cur1].
      cbn in *. rewrite Hs. split.
      * intros [H|H]; [by left | by right].
      * intros [H|(_ & H)]; [by left | by right].
Qed.

Lemma generate_row_highest t cy cur :
  highest_y_generated (generate_row rand t cy cur).1 = highest_y_generated t.
Proof.
  unfold generate_row. destruct (decide _); [done|].
  destruct (Z_lt_dec cy 10); [done|]. by destruct (sample_row _ _ _ _ _).
Qed.

(** Generating the next row of a complete block of rows gives a complete
    block one row taller. *)
Lemma generate_row_dom_rect t cy cur :
  0 <= cy → dom_rect (grid t) (cy - 1) →
  dom_rect (grid (generate_row rand t cy cur).1) cy.
Proof.
  intros Hcy Hdom a b. rewrite generate_row_dom, (Hdom a b).
  assert (grid t !! (0, cy) = None) as Hn.
  { destruct (grid t !! (0, cy)) eqn:E; [|done].
    assert (is_Some (grid t !! (0, cy))) as Hs by (by eexists).
    apply Hdom in Hs. lia. }
  split.
  - intros [[Ha Hb]|(_ & -> & Ha)]; split; lia.
  - intros [Ha Hb]. destruct (decide (b = cy)) as [->|Hne].
    + right. done.
    + left. split; lia.
Qed.

Lemma generate_rows_dom_rect (n : nat) t h cur :
  -1 <= h → dom_rect (grid t) h →
  dom_rect (grid (foldl (λ '(t, cur) cy, generate_row rand t cy cur) (t, cur)
                        (seqZ (h + 1) (Z.of_nat n))).1)
           (h + Z.of_nat n).
Proof.
  revert t h cur. induction n as [|n IH]; intros t h cur Hh Hdom.
  - cbn. by rewrite Z.add_0_r.
  - rewrite seqZ_cons by lia. cbn [foldl].
    pose proof (generate_row_dom_rect t (h + 1) cur ltac:(lia)) as Hrow.
    replace (h + 1 - 1) with h in Hrow by lia. specialize (Hrow Hdom).
    destruct (generate_row rand t (h + 1) cur) as [t1 cur1]. cbn in Hrow.
    replace (Z.pred (Z.of_nat (S n))) with (Z.of_nat n) by lia.
    replace (h + Z.of_nat (S n)) with ((h + 1) + Z.of_nat n) by lia.
    replace (Z.succ (h + 1)) with ((h + 1) + 1) by lia.
    apply IH; [lia | done].
Qed.

End GenerationRows.

(** X1: [generate_row] is idempotent: once a row has been generated, a
    second call for the same depth returns the terrain as it is and draws
    no random number, whatever the terrain was before the first call. *)
Theorem generate_row_idempotent (rand : nat -> Q) (t : Terrain) (y_depth : Z)
    (cur cur' : nat) :
  generate_row rand (generate_row rand t y_depth cur).1 y_depth cur'
  = ((generate_row rand t y_depth cur).1, cur').
Proof.
  assert (Hrow : is_Some (grid (generate_row rand t y_depth cur).1 !! (0, y_depth))).
  { apply generate_row_dom.
    destruct (grid t !! (0, y_depth)) eqn:E; [left; by eexists|].
    right. split; [done|]. split; [done|]. by vm_compute. }
  unfold generate_row at 1. by rewrite decide_True.
Qed.

(** [ensure_generated] on a complete block of rows. *)
Lemma ensure_generated_block (rand : nat -> Q) (t : Terrain) (target_y : Z)
    (cur : nat) :
  -1 <= highest_y_generated t ->
  dom_rect (grid t) (highest_y_generated t) ->
  let t' := (ensure_generated rand t target_y cur).1 in
  highest_y_generated t' = Z.max (highest_y_generated t) target_y /\
  dom_rect (grid t') (highest_y_generated t') /\
  (forall pos c, grid t !! pos = Some c -> grid t' !! pos = Some c) /\
  (target_y <= highest_y_generated t ->
     ensure_generated rand t target_y cur = (t, cur)).
Proof.
  intros Hh Hdom t'. subst t'.
  assert (Hkeep : forall pos c, grid t !! pos = Some c ->
            grid (ensure_generated rand t target_y cur).1 !! pos = Some c).
  { intros [a b] c Hc. rewrite ensure_generated_keeps_row; [done|].
    apply Hdom. assert (is_Some (grid t !! (a, b))) as Hs by (by eexists).
    apply Hdom in Hs. split; [by vm_compute | lia]. }
  unfold ensure_generated in *.
  destruct (Z_lt_dec (highest_y_generated t) target_y) as [Hlt|Hge].
  - pose proof (generate_rows_dom_rect rand
                  (Z.to_nat (target_y - highest_y_generated t)) t
                  (highest_y_generated t) cur Hh Hdom) as Hrows.
    rewrite Z2Nat.id in Hrows by lia.
    destruct (foldl _ _ _) as [t1 cur1]. cbn in *.
    replace (highest_y_generated t + (target_y - highest_y_generated t))
      with target_y in Hrows by lia.
    split; [lia|]. split; [done|]. split; [done|]. lia.
  - cbn. split; [lia|]. split; [done|]. split; [done|]. done.
Qed.

(** X2: on a terrain that holds exactly the rows [0 .. frontier], each
    with all its columns, [ensure_generated] leaves exactly the rows
    [0 .. max(frontier, target)], moves the frontier to that maximum, and
    keeps every cell that existed; a target at or below the frontier
    changes nothing and draws no random number. *)
Theorem ensure_generated_extends_block (rand : nat -> Q) (t : Terrain) (target_y : Z)
    (cur : nat) :
  -1 <= highest_y_generated t ->
  dom_rect (grid t) (highest_y_generated t) ->
  let t' := (ensure_generated rand t target_y cur).1 in
  highest_y_generated t' = Z.max (highest_y_generated t) target_y /\
  dom_rect (grid t') (highest_y_generated t') /\
  (forall pos c, grid t !! pos = Some c -> grid t' !! pos = Some c) /\
  (target_y <= highest_y_generated t ->
     ensure_generated rand t target_y cur = (t, cur)).
Proof. apply ensure_generated_block. Qed.

Lemma ensure_generated_extends_block_witness :
  highest_y_generated (ensure_generated zero_stream Terrain_init 20 O).1 = Z.max (-1) 20 /\
  dom_rect (grid (ensure_generated zero_stream Terrain_init 20 O).1)
           (highest_y_generated (ensure_generated zero_stream Terrain_init 20 O).1).
Proof.
  destruct (ensure_generated_extends_block zero_stream Terrain_init 20 O) as (H1 & H2 & _).
  - cbn. lia.
  - intros a b. cbn. rewrite lookup_empty. split; [by intros [? ?] | lia].
  - split; [exact H1 | exact H2].
Defined.

(** ** Sampling weights *)

Lemma linear_at_least_base n sd :
  (0 <= scale (ORE_CONFIG n))%Q -> 0 <= sd -> (base (ORE_CONFIG n) <= linear n sd)%Q.
Proof.
  intros Hs Hsd. unfold linear.
  assert (0 <= inject_Z sd)%Q by (change 0%Q with (inject_Z 0); by rewrite <- Zle_Qle).
  nra.
Qed.

(** X3: at every depth each of the six sampled kinds keeps a weight of at
    least 1 (Dirt at least 10, Rock 5, Gold 3 once the depth scaling
    applies), so the weights [random.choices] receives are never all
    zero and no kind ever becomes impossible. *)
Theorem row_weights_at_least_one (y_depth : Z) :
  length (row_weights y_depth) = length choices /\
  Forall (fun w => (1 <= w)%Q) (row_weights y_depth) /\
  (6 <= sumQ (row_weights y_depth))%Q.
Proof.
  unfold row_weights. destruct (Z_lt_dec 0 (scaled_depth y_depth)) as [Hsd|Hsd].
  - set (sd := scaled_depth y_depth) in *.
    pose proof (py_max_ge_l 5 (linear N_ROCK sd)) as H1.
    pose proof (py_max_ge_l 1 (linear N_BRONZE sd)) as H2.
    pose proof (py_max_ge_l 1 (linear N_SILVER sd)) as H3.
    pose proof (linear_at_least_base N_GOLD sd ltac:(by vm_compute) ltac:(lia)) as H4.
    pose proof (linear_at_least_base N_DIAMOND sd ltac:(by vm_compute) ltac:(lia)) as H5.
    pose proof (py_max_ge_l 10
      (100 - sumQ [py_max 5 (linear N_ROCK sd); py_max 1 (linear N_BRONZE sd);
                   py_max 1 (linear N_SILVER sd); linear N_GOLD sd;
                   linear N_DIAMOND sd])) as H0.
    cbn [base ORE_CONFIG] in H4, H5. cbv zeta.
    set (w0 := py_max 10 _) in *. set (w1 := py_max 5 _) in *.
    set (w2 := py_max 1 (linear N_BRONZE sd)) in *.
    set (w3 := py_max 1 (linear N_SILVER sd)) in *.
    set (w4 := linear N_GOLD sd) in *. set (w5 := linear N_DIAMOND sd) in *.
    split; [done|]. split.
    + repeat constructor; lra.
    + unfold sumQ. cbn [fold_left]. lra.
  - split; [done|]. split.
    + unfold base_weights. repeat constructor; by vm_compute.
    + by vm_compute.
Qed.

(** X4: the weights add up to 95 on the rows that use the unscaled list
    (depth up to 20); on the rows 21 to 266 Dirt is the true remainder
    (above its floor of 10) and the total is 100 to within a thousandth;
    from row 267 on Dirt is pinned at its floor of 10 and the total is
    above 100. The thresholds have a margin of a tenth, far more than the
    rounding of the doubles the source computes with. *)
Theorem row_weights_total (y_depth : Z) :
  (y_depth <= 20 -> (sumQ (row_weights y_depth) == 95)%Q) /\
  (20 < y_depth <= 266 ->
     (10 < weight_of DIRT (row_weights y_depth))%Q /\
     (100 - (1 # 1000) <= sumQ (row_weights y_depth))%Q /\
     (sumQ (row_weights y_depth) <= 100 + (1 # 1000))%Q) /\
  (266 < y_depth ->
     (weight_of DIRT (row_weights y_depth) == 10)%Q /\
     (100 < sumQ (row_weights y_depth))%Q).
Proof.
  split; [|split].
  - intros Hy. unfold row_weights, scaled_depth. rewrite py_maxZ_spec.
    destruct (Z_lt_dec 0 (Z.max 0 (y_depth - 20))); [lia|]. by vm_compute.
  - intros [Hlo Hhi]. rewrite row_weights_scaled by done. cbv zeta.
    assert (He1 : (0 < inject_Z (y_depth - 20))%Q).
    { change 0%Q with (inject_Z 0). rewrite <- Zlt_Qlt. lia. }
    assert (He2 : (inject_Z (y_depth - 20) <= 246)%Q).
    { change 246%Q with (inject_Z 246). rewrite <- Zle_Qle. lia. }
    destruct (Z_le_dec (y_depth - 20) 140) as [Hk|Hk].
    + assert (He3 : (inject_Z (y_depth - 20) <= 140)%Q).
      { change 140%Q with (inject_Z 140). rewrite <- Zle_Qle. lia. }
      unfold weight_of, sumQ, linear, py_max. cbn [nth fold_left ORE_CONFIG base scale].
      set (e := inject_Z (y_depth - 20)) in *.
      repeat (destruct (Qlt_le_dec _ _); cbn [fold_left]); repeat split; lra.
    + assert (He3 : (141 <= inject_Z (y_depth - 20))%Q).
      { change 141%Q with (inject_Z 141). rewrite <- Zle_Qle. lia. }
      unfold weight_of, sumQ, linear, py_max. cbn [nth fold_left ORE_CONFIG base scale].
      set (e := inject_Z (y_depth - 20)) in *.
      repeat (destruct (Qlt_le_dec _ _); cbn [fold_left]); repeat split; lra.
  - intros Hlo. rewrite row_weights_scaled by lia. cbv zeta.
    assert (He1 : (247 <= inject_Z (y_depth - 20))%Q).
    { change 247%Q with (inject_Z 247). rewrite <- Zle_Qle. lia. }
    unfold weight_of, sumQ, linear, py_max. cbn [nth fold_left ORE_CONFIG base scale].
    set (e := inject_Z (y_depth - 20)) in *.
    repeat (destruct (Qlt_le_dec _ _); cbn [fold_left]); repeat split; lra.
Qed.

Lemma row_weights_total_witness :
  (sumQ (row_weights 12) == 95)%Q /\ (10 < weight_of DIRT (row_weights 25))%Q /\
  (100 < sumQ (row_weights 300))%Q.
Proof.
  destruct (row_weights_total 12) as (H1 & _).
  destruct (row_weights_total 25) as (_ & H2 & _).
  destruct (row_weights_total 300) as (_ & _ & H3).
  split; [apply H1; lia|]. split; [apply H2; lia|]. apply H3. lia.
Defined.

(** ** Particles *)

(** X5: [emit] with a count of at least 1 activates exactly
    [min(count, free)] slots and leaves every other slot as it was; each
    claimed slot starts at the given position with the given colour, life
    255 and a velocity in [[-3, 3] x [-5, -1]]; the pool keeps its size. *)
Theorem emit_min_of_count_and_free (rand : nat -> Q) (pool : list Particle)
    (px py : Q) (c : Color) (count : Z) (cur : nat) :
  1 <= count ->
  (forall i, (0 <= rand i < 1)%Q) ->
  count_active (emit rand pool px py c count cur).1
    = (count_active pool + Nat.min (Z.to_nat count) (count_free pool))%nat /\
  Forall2 (slot_emitted px py c) pool (emit rand pool px py c count cur).1 /\
  length (emit rand pool px py c count cur).1 = length pool.
Proof.
  intros Hc Hr.
  destruct (emit_activates_min rand pool px py c count cur Hc Hr) as (H1 & H2 & H3 & _).
  done.
Qed.

Lemma emit_min_of_count_and_free_witness :
  count_active (emit zero_stream (ParticlePool_init POOL_SIZE) 0 0 (255, 255, 255) 300 O).1
  = (count_active (ParticlePool_init POOL_SIZE)
     + Nat.min (Z.to_nat 300) (count_free (ParticlePool_init POOL_SIZE)))%nat.
Proof.
  apply (emit_min_of_count_and_free zero_stream (ParticlePool_init POOL_SIZE)
           0 0 (255, 255, 255) 300 O).
  - lia.
  - intros i. by vm_compute.
Defined.

Lemma update_particle_inactive p : active p = false -> update_particle p = p.
Proof. intros H. unfold update_particle. by rewrite H. Qed.

Lemma iter_update_inactive n p :
  active p = false -> Nat.iter n update_particle p = p.
Proof.
  intros H. induction n as [|n IH]; [done|]. rewrite Nat.iter_succ, IH.
  by apply update_particle_inactive.
Qed.

(** The state of a particle that is still alive after [n] passes. *)
Lemma iter_update_alive n p :
  active p = true -> 8 * Z.of_nat n < life p ->
  let q := Nat.iter n update_particle p in
  active q = true /\ life q = life p - 8 * Z.of_nat n /\
  color q = color p /\ vx q = vx p /\
  (vy q == vy p + (3 # 10) * inject_Z (Z.of_nat n))%Q /\
  (x q == x p + inject_Z (Z.of_nat n) * vx p)%Q /\
  (y q == y p + inject_Z (Z.of_nat n) * vy p
          + (3 # 20) * inject_Z (Z.of_nat n) * (inject_Z (Z.of_nat n) + 1))%Q.
Proof.
  intros Hact. induction n as [|n IH]; intros Hlife q; subst q.
  - change (Nat.iter 0 update_particle p) with p. change (inject_Z (Z.of_nat 0)) with 0%Q.
    repeat split; try done; try lia; lra.
  - destruct IH as (Ha & Hl & Hc & Hvx & Hvy & Hx & Hy); [lia|].
    rewrite Nat.iter_succ. set (q := Nat.iter n update_particle p) in *.
    unfold update_particle. rewrite Ha. cbn.
    destruct (Z_le_dec (life q - 8) 0); [lia|].
    rewrite Nat2Z.inj_succ. unfold Z.succ. rewrite inject_Z_plus.
    change (inject_Z 1) with 1%Q.
    set (N := inject_Z (Z.of_nat n)) in *.
    rewrite Hvx in *.
    repeat split; try done; try lia; lra.
Qed.

Lemma iter_update_dead n p :
  active p = true -> 0 < life p -> life p <= 8 * Z.of_nat n ->
  active (Nat.iter n update_particle p) = false.
Proof.
  intros Hact Hpos. induction n as [|n IH]; intros Hlife; [lia|].
  rewrite Nat.iter_succ. destruct (Z_lt_dec (8 * Z.of_nat n) (life p)) as [Hlt|Hge].
  - destruct (iter_update_alive n p Hact Hlt) as (Ha & Hl & _).
    unfold update_particle at 1. rewrite Ha. cbn.
    destruct (Z_le_dec _ _); [done | lia].
  - rewrite update_particle_inactive; apply IH; lia.
Qed.

(** X6: a particle with [life] points left stays active for exactly the
    passes of [update_and_draw] whose total decrement of 8 per pass stays
    below [life]; a freshly emitted one (life 255) is drawn for 31 passes
    and released by the 32nd. *)
Theorem particle_lifetime (rand : nat -> Q) (p : Particle) (n : nat)
    (px py : Q) (c : Color) (cur : nat) :
  active p = true -> 0 < life p ->
  (active (Nat.iter n update_particle p) = true <-> 8 * Z.of_nat n < life p) /\
  active (Nat.iter 31 update_particle (spawn rand px py c cur)) = true /\
  active (Nat.iter 32 update_particle (spawn rand px py c cur)) = false.
Proof.
  intros Hact Hpos. split; [|split].
  - split.
    + intros Ha. destruct (Z_lt_dec (8 * Z.of_nat n) (life p)) as [|Hge]; [done|].
      rewrite iter_update_dead in Ha by (done || lia). done.
    + intros Hlt. by apply iter_update_alive.
  - apply iter_update_alive; [done | cbn; lia].
  - apply iter_update_dead; [done | cbn; lia | cbn; lia].
Qed.

Lemma particle_lifetime_witness :
  active (Nat.iter 5 update_particle (spawn zero_stream 0 0 (255, 255, 255) O)) = true
  <-> 8 * Z.of_nat 5 < life (spawn zero_stream 0 0 (255, 255, 255) O).
Proof.
  apply (particle_lifetime zero_stream (spawn zero_stream 0 0 (255, 255, 255) O) 5
           0 0 (255, 255, 255) O).
  - reflexivity.
  - cbn. lia.
Defined.

(** X7: while a particle is alive, [n] passes lower its life by [8 n]
    and leave its colour and horizontal velocity untouched; gravity only
    ever adds to the vertical velocity, so the particle never moves
    against its horizontal velocity, a particle that is falling keeps
    falling, and a particle that started no faster upward than the
    fastest emitted one ([vy >= -5]) is falling after 17 passes. *)
Theorem particle_trajectory (p : Particle) (n : nat) :
  active p = true -> 8 * Z.of_nat n < life p ->
  let q := Nat.iter n update_particle p in
  life q = life p - 8 * Z.of_nat n /\
  color q = color p /\ vx q = vx p /\
  (vy p <= vy q)%Q /\
  ((0 <= vx p)%Q -> (x p <= x q)%Q) /\
  ((vx p <= 0)%Q -> (x q <= x p)%Q) /\
  ((0 <= vy p)%Q -> (y p <= y q)%Q) /\
  ((-5 <= vy p)%Q -> (17 <= n)%nat -> (0 < vy q)%Q).
Proof.
  intros Hact Hlife q.
  destruct (iter_update_alive n p Hact Hlife) as (_ & Hl & Hc & Hvx & Hvy & Hx & Hy).
  fold q in Hl, Hc, Hvx, Hvy, Hx, Hy.
  assert (HN : (0 <= inject_Z (Z.of_nat n))%Q).
  { change 0%Q with (inject_Z 0). rewrite <- Zle_Qle. lia. }
  set (N := inject_Z (Z.of_nat n)) in *.
  split; [done|]. split; [done|]. split; [done|].
  split; [lra|]. split; [intros; nra|]. split; [intros; nra|]. split; [intros; nra|].
  intros Hv Hn.
  assert (17 <= N)%Q.
  { unfold N. change 17%Q with (inject_Z 17). rewrite <- Zle_Qle. lia. }
  lra.
Qed.

Lemma particle_trajectory_witness :
  (vy (spawn zero_stream 0 100 (255, 255, 255)%Z O)
   <= vy (Nat.iter 10 update_particle (spawn zero_stream 0 100 (255, 255, 255)%Z O)))%Q.
Proof.
  destruct (particle_trajectory (spawn zero_stream 0 100 (255, 255, 255)%Z O) 10)
    as (_ & _ & _ & Hvy & _).
  - reflexivity.
  - cbn. lia.
  - exact Hvy.
Defined.

Lemma iter_update_and_draw n pool :
  Nat.iter n update_and_draw pool = map (Nat.iter n update_particle) pool.
Proof.
  induction n as [|n IH].
  - change (Nat.iter 0 update_and_draw pool) with pool. symmetry. apply map_id.
  - rewrite Nat.iter_succ, IH. unfold update_and_draw. rewrite map_map.
    apply map_ext. intros q. by rewrite Nat.iter_succ.
Qed.

Lemma update_particle_active_before p :
  active (update_particle p) = true -> active p = true.
Proof.
  unfold update_particle. destruct (active p) eqn:E; [done|]. by rewrite E.
Qed.

(** X8: [update_and_draw] never activates a slot (the number of active
    particles cannot grow and the pool keeps its size), and a pool whose
    active particles have at most the initial life of 255 is completely
    idle after 32 passes without a new emission. *)
Theorem particles_fade_out (pool : list Particle) :
  Forall (fun p => active p = true -> 0 < life p <= 255) pool ->
  (count_active (update_and_draw pool) <= count_active pool)%nat /\
  length (update_and_draw pool) = length pool /\
  count_active (Nat.iter 32 update_and_draw pool) = O.
Proof.
  intros Hlife. split; [|split].
  - unfold count_active, update_and_draw. clear Hlife.
    induction pool as [|p pool IH]; cbn [map List.filter]; [done|].
    destruct (active (update_particle p)) eqn:E.
    + rewrite (update_particle_active_before p E). cbn. lia.
    + destruct (active p); cbn; lia.
  - apply update_and_draw_length.
  - rewrite iter_update_and_draw. unfold count_active.
    induction Hlife as [|p pool Hp _ IH]; [done|].
    cbn [map List.filter].
    destruct (active p) eqn:Hact.
    + rewrite iter_update_dead; [exact IH | done | lia | cbn; lia].
    + rewrite iter_update_inactive by done. rewrite Hact. exact IH.
Qed.

Lemma particles_fade_out_witness :
  count_active (Nat.iter 32 update_and_draw
    (replicate 3 (spawn zero_stream 0 0 (255, 255, 255) O) ++ ParticlePool_init 2)) = O.
Proof.
  apply (particles_fade_out
    (replicate 3 (spawn zero_stream 0 0 (255, 255, 255) O) ++ ParticlePool_init 2)).
  repeat constructor; cbn; intros; lia || done.
Defined.

(** ** What every reachable world satisfies *)

Section WellFormed.

Variable rand : nat -> Q.

Lemma requested_move_unit w keys dt :
  requested_move w keys dt ∈ [(0, 0); (-1, 0); (1, 0); (0, 1); (0, -1)].
Proof.
  unfold requested_move, read_direction.
  destruct (Z_le_dec _ _); [|by left].
  destruct (_ || _); [cbn; set_unfold; tauto|].
  destruct (_ || _); [cbn; set_unfold; tauto|].
  destruct (_ || _); [cbn; set_unfold; tauto|].
  destruct (_ || _); cbn; set_unfold; tauto.
Qed.

Lemma aimed_mole_frame w keys dt :
  frame (aimed_mole w keys dt) = frame (ug_mole w).
Proof.
  unfold aimed_mole, read_direction.
  destruct (Z_le_dec _ _); [|done]. by repeat destruct (_ || _).
Qed.

Lemma insert_existing_dom_rect g h pos c :
  is_Some (g !! pos) → dom_rect g h → dom_rect (<[pos := c]> g) h.
Proof.
  intros Hpos Hdom a b. rewrite <- (Hdom a b).
  destruct (decide (pos = (a, b))) as [->|Hne].
  - rewrite lookup_insert_eq. split; [done | by eexists].
  - by rewrite lookup_insert_ne.
Qed.

Lemma try_move_shaft w dx dy :
  shaft_ok w → dx ≠ 0 ∨ dy ≠ 0 → -1 <= dy <= 1 →
  grid_y (ug_mole w) + 1 <= highest_y_generated (terrain w) →
  ∃ w', try_move rand w dx dy = Ok w' ∧ shaft_ok w' ∧
    highest_y_generated (terrain w') = highest_y_generated (terrain w) ∧
    camera_y w' = camera_y w ∧
    frame (ug_mole w') = frame (ug_mole w) ∧
    grid_y (ug_mole w') <= grid_y (ug_mole w) + 1 ∧
    (session w' = session w ∨ ∃ k, session w' = credit_ore (session w) k) ∧
    (∀ pos c, pos ≠ (grid_x (ug_mole w) + dx, grid_y (ug_mole w) + dy) →
       grid (terrain w) !! pos = Some c → grid (terrain w') !! pos = Some c) ∧
    (∀ pos c, kind c = EMPTY →
       grid (terrain w) !! pos = Some c →
       ∃ c', grid (terrain w') !! pos = Some c' ∧ kind c' = EMPTY).
Proof.
  intros Hs Hd Hdy Hahead. pose proof Hs as (Hdom & Hx & Hy & Hown).
  set (tx := grid_x (ug_mole w) + dx). set (ty := grid_y (ug_mole w) + dy).
  assert (Hsame : ∀ m' : GridMole,
    grid_y m' <= grid_y (ug_mole w) + 1 → frame m' = frame (ug_mole w) →
    highest_y_generated (terrain (set_mole w m')) = highest_y_generated (terrain w) ∧
    camera_y (set_mole w m') = camera_y w ∧
    frame (ug_mole (set_mole w m')) = frame (ug_mole w) ∧
    grid_y (ug_mole (set_mole w m')) <= grid_y (ug_mole w) + 1 ∧
    (session (set_mole w m') = session w
     ∨ ∃ k, session (set_mole w m') = credit_ore (session w) k) ∧
    (∀ pos c, pos ≠ (tx, ty) →
       grid (terrain w) !! pos = Some c →
       grid (terrain (set_mole w m')) !! pos = Some c) ∧
    (∀ pos c, kind c = EMPTY →
       grid (terrain w) !! pos = Some c →
       ∃ c', grid (terrain (set_mole w m')) !! pos = Some c' ∧ kind c' = EMPTY)).
  { intros m' Hm1 Hm2. cbn. split; [done|]. split; [done|]. split; [done|].
    split; [done|]. split; [by left|]. split; [by intros|].
    intros pos c Hk Hc. by exists c. }
  destruct (decide (in_range tx ty)) as [Hr|Hr].
  2:{ rewrite try_move_out_of_range by done. eexists. split; [done|].
      split; [exact Hs|]. apply Hsame; cbn; [lia | done]. }
  assert (is_Some (grid (terrain w) !! (tx, ty))) as [[k d] Hcell].
  { apply Hdom. destruct Hr. subst ty. split; [done | lia]. }
  assert (Hne : (tx, ty) ≠ (grid_x (ug_mole w), grid_y (ug_mole w))).
  { subst tx ty. intros [= H1 H2]. lia. }
  destruct (decide (k = EMPTY)) as [->|Hk1].
  { rewrite (try_move_empty rand w dx dy d) by done. eexists. split; [done|].
    fold tx ty. split.
    - split; [exact Hdom|]. cbn. unfold grid_get. rewrite Hcell. by destruct Hr.
    - apply Hsame; cbn; [subst ty; lia | done]. }
  destruct (decide (k = ROCK)) as [->|Hk2].
  { rewrite (try_move_rock rand w dx dy d) by done. eexists. split; [done|].
    split; [exact Hs|]. apply Hsame; cbn; [lia | done]. }
  assert (Hdom' : ∀ c, dom_rect (<[(tx, ty) := c]> (grid (terrain w)))
                               (highest_y_generated (terrain w))).
  { intros c. apply insert_existing_dom_rect; [by eexists | done]. }
  assert (Hkeep : ∀ c0 pos c, pos ≠ (tx, ty) →
            grid (terrain w) !! pos = Some c →
            <[(tx, ty) := c0]> (grid (terrain w)) !! pos = Some c).
  { intros c0 pos c Hpos Hc. by rewrite lookup_insert_ne. }
  destruct (Z_le_dec d 1).
  - rewrite (try_move_destroy rand w dx dy k d) by done. fold tx ty.
    destruct (emit _ _ _ _ _ _ _) as [pool' cur']. eexists. split; [done|].
    split.
    + split; [apply Hdom'|]. cbn. unfold grid_get. rewrite lookup_insert_eq.
      by destruct Hr.
    + cbn. split; [done|]. split; [done|]. split; [done|].
      split; [subst ty; lia|]. split; [right; by eexists|]. split; [apply Hkeep|].
      intros pos c Hk Hc. destruct (decide ((tx, ty) = pos)) as [<-|Hp].
      * rewrite lookup_insert_eq. by eexists.
      * rewrite lookup_insert_ne by done. by eexists.
  - rewrite (try_move_hit rand w dx dy k d) by (done || lia). fold tx ty.
    eexists. split; [done|]. split.
    + split; [apply Hdom'|]. cbn. unfold grid_get in *.
      by rewrite lookup_insert_ne.
    + cbn. split; [done|]. split; [done|]. split; [done|].
      split; [lia|]. split; [by left|]. split; [apply Hkeep|].
      intros pos c Hk Hc. destruct (decide ((tx, ty) = pos)) as [<-|Hp].
      * rewrite Hcell in Hc. injection Hc as <-. done.
      * rewrite lookup_insert_ne by done. by eexists.
Qed.

Lemma process_animation_frame m dt :
  0 <= frame m <= 1 → 0 <= frame (process_animation m dt) <= 1.
Proof.
  intros Hf. unfold process_animation. destruct (Z_lt_dec _ _); [|done]. cbn.
  destruct (state m); cbn.
  - rewrite Z.mod_1_r. lia.
  - pose proof (Z.mod_pos_bound (frame m + 1) 2 ltac:(lia)). lia.
  - pose proof (Z.mod_pos_bound (frame m + 1) 2 ltac:(lia)). lia.
Qed.

Lemma Qfloor_lower (z : Z) (q : Q) : (inject_Z z <= q)%Q → z <= Qfloor q.
Proof. intros H. rewrite <- (Qfloor_Z z). by apply Qfloor_resp_le. Qed.

Lemma lookahead_covers cam (cy : Z) :
  (0 <= cam)%Q → (inject_Z (cy * TILE_SIZE) - 448 <= cam)%Q →
  cy + 11 <= lookahead_row cam ∧
  Qfloor (cam / inject_Z TILE_SIZE) + ROWS + 1 + 9 <= lookahead_row cam.
Proof.
  intros Hpos Hlag. unfold lookahead_row.
  change (inject_Z HEIGHT) with 480%Q. change (inject_Z TILE_SIZE) with 32%Q in *.
  change ROWS with 15.
  rewrite inject_Z_mult in Hlag. change (inject_Z TILE_SIZE) with 32%Q in Hlag.
  split.
  - assert (cy + 1 <= Qfloor ((cam + 480) / 32)); [|lia].
    apply Qfloor_lower. rewrite inject_Z_plus. change (inject_Z 1) with 1%Q.
    apply Qle_shift_div_l; [done|]. lra.
  - assert (Qfloor (cam / 32) + 15 <= Qfloor ((cam + 480) / 32)); [|lia].
    apply Qfloor_lower. rewrite inject_Z_plus. change (inject_Z 15) with 15%Q.
    pose proof (Qfloor_le (cam / 32)) as Hfl.
    apply Qle_shift_div_l; [done|].
    assert (cam / 32 * 32 == cam)%Q as He by (field).
    nra.
Qed.

Lemma underground_update_wf w keys dt :
  world_wf w →
  ∃ w', underground_update rand w keys dt = Ok w' ∧ world_wf w' ∧
    highest_y_generated (terrain w) <= highest_y_generated (terrain w') ∧
    money (session w') = money (session w) ∧
    shovel_level (session w') = shovel_level (session w) ∧
    has_torch (session w') = has_torch (session w) ∧
    (∀ pos c, pos ≠ dig_target w keys dt →
       grid (terrain w) !! pos = Some c → grid (terrain w') !! pos = Some c) ∧
    (∀ pos c, kind c = EMPTY →
       grid (terrain w) !! pos = Some c →
       ∃ c', grid (terrain w') !! pos = Some c' ∧ kind c' = EMPTY) ∧
    (session w' = session w ∨ ∃ k, session w' = credit_ore (session w) k).
Proof.
  intros Hwf. destruct Hwf.
  unfold underground_update. rewrite underground_input_unfold.
  unfold dig_target.
  pose proof (requested_move_unit w keys dt) as Hunit.
  destruct (requested_move w keys dt) as [dx dy]. cbv zeta. cbn [fst snd].
  destruct (aimed_mole_position w keys dt) as [Hax Hay].
  pose proof (aimed_mole_frame w keys dt) as Haf.
  set (m := aimed_mole w keys dt) in *.
  assert (Hdy : -1 <= dy <= 1).
  { set_unfold. destruct Hunit as [H|[H|[H|[H|[H|H]]]]]; try done;
      injection H as -> ->; lia. }
  assert (Hin : ∃ w1,
    (if decide (dx ≠ 0 ∨ dy ≠ 0) then try_move rand (set_mole w m) dx dy
     else if Z_le_dec (can_move_timer m) 0
          then Ok (set_mole (set_mole w m) (set_state m IDLE))
          else Ok (set_mole w m)) = Ok w1 ∧
    shaft_ok w1 ∧
    highest_y_generated (terrain w1) = highest_y_generated (terrain w) ∧
    camera_y w1 = camera_y w ∧ frame (ug_mole w1) = frame (ug_mole w) ∧
    grid_y (ug_mole w1) <= grid_y (ug_mole w) + 1 ∧
    (session w1 = session w ∨ ∃ k, session w1 = credit_ore (session w) k) ∧
    (∀ pos c, pos ≠ (grid_x (ug_mole w) + dx, grid_y (ug_mole w) + dy) →
       grid (terrain w) !! pos = Some c → grid (terrain w1) !! pos = Some c) ∧
    (∀ pos c, kind c = EMPTY →
       grid (terrain w) !! pos = Some c →
       ∃ c', grid (terrain w1) !! pos = Some c' ∧ kind c' = EMPTY)).
  { assert (Hs0 : shaft_ok (set_mole w m)).
    { unfold shaft_ok. cbn. by rewrite Hax, Hay. }
    case_decide as Hd.
    - destruct (try_move_shaft (set_mole w m) dx dy Hs0 Hd Hdy)
        as (w1 & Hm & Hs1 & Hh & Hc & Hf & Hy1 & Hses & Hkeep & Hempty).
      { cbn. by rewrite Hay. }
      cbn in Hh, Hc, Hf, Hy1, Hses, Hkeep, Hempty.
      rewrite Hax, Hay in *. exists w1. rewrite Haf in Hf. done.
    - assert (Hstay : ∀ m' : GridMole,
        grid_x m' = grid_x (ug_mole w) → grid_y m' = grid_y (ug_mole w) →
        frame m' = frame (ug_mole w) →
        shaft_ok (set_mole w m') ∧
        highest_y_generated (terrain (set_mole w m')) = highest_y_generated (terrain w) ∧
        camera_y (set_mole w m') = camera_y w ∧
        frame (ug_mole (set_mole w m')) = frame (ug_mole w) ∧
        grid_y (ug_mole (set_mole w m')) <= grid_y (ug_mole w) + 1 ∧
        (session (set_mole w m') = session w
         ∨ ∃ k, session (set_mole w m') = credit_ore (session w) k) ∧
        (∀ pos c, pos ≠ (grid_x (ug_mole w) + dx, grid_y (ug_mole w) + dy) →
           grid (terrain w) !! pos = Some c →
           grid (terrain (set_mole w m')) !! pos = Some c) ∧
        (∀ pos c, kind c = EMPTY →
           grid (terrain w) !! pos = Some c →
           ∃ c', grid (terrain (set_mole w m')) !! pos = Some c' ∧ kind c' = EMPTY)).
      { intros m' Hmx Hmy Hmf. split.
        - unfold shaft_ok. cbn. by rewrite Hmx, Hmy.
        - cbn. split; [done|]. split; [done|]. split; [done|]. split; [lia|].
          split; [by left|]. split; [by intros|].
          intros pos c Hk Hc. by exists c. }
      destruct (Z_le_dec _ _); eexists; (split; [done|]); apply Hstay; done. }
  destruct Hin as (w1 & -> & (Hdom1 & Hx1 & Hy1 & Hown1) & Hh1 & Hc1 & Hf1 & Hup1
                   & Hses & Hkeep & Hempty).
  cbn. eexists. split; [done|].
  destruct (underground_follow_fields rand w1 dt) as (Hm2 & Hs2 & Hp2 & Ht2).
  destruct (process_animation_position (ug_mole w1) dt) as (Hpx & Hpy & _).
  set (cam' := camera_follow (camera_target (grid_y (process_animation (ug_mole w1) dt)))
                             (camera_y w1)) in *.
  assert (Hcam' : camera_y (underground_follow rand w1 dt) = cam').
  { unfold underground_follow. by destruct (ensure_generated _ _ _ _). }
  assert (Hcam_pos : (0 <= cam')%Q).
  { subst cam'. unfold camera_follow. rewrite Hc1.
    pose proof (camera_target_nonneg (grid_y (process_animation (ug_mole w1) dt))). lra. }
  assert (Hcam_lag : (inject_Z (grid_y (ug_mole w1) * TILE_SIZE) - 448 <= cam')%Q).
  { subst cam'. unfold camera_follow. rewrite Hc1, Hpy.
    pose proof (py_max_ge_r 0 (inject_Z (grid_y (ug_mole w1) * TILE_SIZE - HEIGHT / 3))) as Ht.
    fold (camera_target (grid_y (ug_mole w1))) in Ht.
    set (T := camera_target (grid_y (ug_mole w1))) in *.
    change (HEIGHT / 3) with 160 in Ht. unfold Z.sub in Ht.
    rewrite inject_Z_plus, inject_Z_opp in Ht. change (inject_Z 160) with 160%Q in Ht.
    rewrite !inject_Z_mult in *. change (inject_Z TILE_SIZE) with 32%Q in *.
    assert (inject_Z (grid_y (ug_mole w1)) <= inject_Z (grid_y (ug_mole w)) + 1)%Q.
    { change 1%Q with (inject_Z 1). rewrite <- inject_Z_plus, <- Zle_Qle. lia. }
    lra. }
  destruct (lookahead_covers cam' (grid_y (ug_mole w1)) Hcam_pos Hcam_lag) as [Hl1 Hl2].
  destruct (ensure_generated_block rand (terrain w1) (lookahead_row cam') (rng_pos w1))
    as (Hh2 & Hdom2 & Hkeep2 & _); [rewrite Hh1; lia | done |].
  rewrite <- Ht2 in Hh2, Hdom2, Hkeep2.
  split; [|split; [|split; [|split; [|split; [|split; [|split]]]]]].
  - constructor.
    + done.
    + by rewrite Hm2, Hpx.
    + by rewrite Hm2, Hpy.
    + rewrite Hm2, Hpy, Hh2. lia.
    + rewrite Hm2, Hpx, Hpy. unfold grid_get in *.
      destruct (grid (terrain w1) !! (grid_x (ug_mole w1), grid_y (ug_mole w1)))
        as [c|] eqn:E; [|done].
      by rewrite (Hkeep2 _ _ E).
    + by rewrite Hcam'.
    + by rewrite Hcam', Hm2, Hpy.
    + rewrite Hcam', Hh2. lia.
    + rewrite Hm2. apply process_animation_frame. by rewrite Hf1.
    + rewrite Hs2. destruct Hses as [->|[k ->]]; [done|].
      unfold credit_ore. by destruct (inventory (session w) !! k).
    + rewrite Hs2. destruct Hses as [->|[k ->]]; [done|].
      unfold credit_ore. by destruct (inventory (session w) !! k).
    + rewrite Hs2. destruct Hses as [->|[k ->]]; [done|].
      unfold credit_ore. destruct (inventory (session w) !! k) as [n0|] eqn:E; [|done].
      cbn. intros k' n. destruct (decide (k = k')) as [<-|Hne].
      * rewrite lookup_insert_eq. intros [= <-]. pose proof (wf_counts0 k n0 E). lia.
      * rewrite lookup_insert_ne by done. apply wf_counts0.
  - rewrite Hh2, Hh1. lia.
  - rewrite Hs2. destruct Hses as [->|[k ->]]; [done|].
    unfold credit_ore. by destruct (inventory (session w) !! k).
  - rewrite Hs2. destruct Hses as [->|[k ->]]; [done|].
    unfold credit_ore. by destruct (inventory (session w) !! k).
  - rewrite Hs2. destruct Hses as [->|[k ->]]; [done|].
    unfold credit_ore. by destruct (inventory (session w) !! k).
  - intros pos c Hpos Hc. apply Hkeep2. by apply Hkeep.
  - intros pos c Hk Hc. destruct (Hempty pos c Hk Hc) as (c' & Hc' & Hk').
    exists c'. split; [by apply Hkeep2 | done].
  - by rewrite Hs2.
Qed.

End WellFormed.

Lemma sell_all_earned_nonneg (inv : gmap TileKind Z) :
  (forall k n, inv !! k = Some n -> 0 <= n) ->
  0 <= map_fold (fun ore n acc => acc + n * prices ore) 0 inv.
Proof.
  apply (map_fold_weak_ind
    (fun r (m : gmap TileKind Z) => (forall k n, m !! k = Some n -> 0 <= n) -> 0 <= r)).
  - intros _. lia.
  - intros k n m r Hk IH Hall.
    assert (0 <= n) by (apply (Hall k); by rewrite lookup_insert_eq).
    assert (0 <= r).
    { apply IH. intros k' n' Hk'. apply (Hall k').
      rewrite lookup_insert_ne; [done|]. intros ->. congruence. }
    assert (0 <= prices k) by (destruct k; cbn; lia).
    nia.
Qed.

Section Reachable.

Variable rand : nat -> Q.

Lemma init_world_wf : world_wf (init_world rand).
Proof.
  destruct (ensure_generated_block rand Terrain_init (ROWS + 5) O)
    as (Hh & Hdom & _ & _).
  { cbn. lia. }
  { intros a b. cbn. rewrite lookup_empty. split; [by intros [? ?] | lia]. }
  destruct (boot_world_fields rand) as (Ht & Hm & _ & Hs).
  assert (Hcam : camera_y (boot_world rand) = 0%Q).
  { unfold boot_world. by destruct (ensure_generated _ _ _ _). }
  rewrite <- Ht in Hh, Hdom.
  change (Z.max (highest_y_generated Terrain_init) (ROWS + 5)) with 20 in Hh.
  rewrite Hh in Hdom.
  assert (Hspawn : is_Some (grid (terrain (boot_world rand)) !! (10, 5))).
  { apply Hdom. clear. by vm_compute. }
  unfold init_world, carve_spawn.
  constructor;
    cbn [terrain ug_mole camera_y session set_grid grid highest_y_generated];
    rewrite ?Hm, ?Hs, ?Hh, ?Hcam;
    cbn [GridMole_init grid_x grid_y frame GameSession_init money shovel_level inventory];
    change (COLS / 2) with 10.
  - by apply insert_existing_dom_rect.
  - clear. by vm_compute.
  - lia.
  - lia.
  - unfold grid_get. by rewrite lookup_insert_eq.
  - done.
  - clear. by vm_compute.
  - clear. by vm_compute.
  - lia.
  - lia.
  - lia.
  - clear. intros k n. destruct k; vm_compute; intros [= <-]; done.
Qed.

Lemma run_op_wf o w :
  world_wf w → ∃ w', run_op rand o w = Ok w' ∧ world_wf w'.
Proof.
  intros Hwf. destruct o; cbn [run_op].
  - unfold underground_frame.
    destruct (underground_update_wf rand w keys dt Hwf) as (w' & -> & Hwf' & _).
    cbn. eexists. split; [done|]. by destruct Hwf'.
  - destruct (underground_update_wf rand w keys dt Hwf) as (w' & -> & Hwf' & _).
    by eexists.
  - eexists. split; [done|]. by destruct Hwf.
  - eexists. split; [done|]. destruct Hwf. constructor; try done; cbn.
    + pose proof (sell_all_earned_nonneg (inventory (session w)) wf_counts0). lia.
    + intros k n. rewrite lookup_fmap. destruct (inventory (session w) !! k); [|done].
      cbn. intros [= <-]. lia.
  - eexists. split; [done|]. destruct Hwf. constructor; try done; cbn;
      unfold buy_shovel; destruct (Z_le_dec _ _); cbn; try done; lia.
  - eexists. split; [done|]. by destruct Hwf.
  - eexists. split; [done|]. by destruct Hwf.
Qed.

Lemma reachable_wf w : reachable rand w → world_wf w.
Proof.
  induction 1 as [|w o w' _ IH Hrun]; [apply init_world_wf|].
  destruct (run_op_wf o w IH) as (w2 & Hrun2 & Hwf2). congruence.
Qed.

End Reachable.

(** X9: from every reachable world every underground frame returns: the
    cell an input aims at is always a generated one, so the subscript of
    line 442 never raises [KeyError] in play, and neither does any other
    step of the game. *)
Theorem reachable_frames_return (rand : nat -> Q) (w : World) (keys : Keys) (dt : Z)
    (o : Op) :
  reachable rand w ->
  (exists w', underground_frame rand w keys dt = Ok w') /\
  (exists w', run_op rand o w = Ok w' /\ reachable rand w') /\
  (in_range (dig_target w keys dt).1 (dig_target w keys dt).2 ->
     is_Some (grid (terrain w) !! dig_target w keys dt)).
Proof.
  intros Hreach. pose proof (reachable_wf rand w Hreach) as Hwf.
  split; [|split].
  - destruct (run_op_wf rand (OpFrame keys dt) w Hwf) as (w' & Hrun & _). by exists w'.
  - destruct (run_op_wf rand o w Hwf) as (w' & Hrun & _). exists w'.
    split; [done|]. by eapply reachable_step.
  - destruct Hwf. unfold dig_target.
    pose proof (requested_move_unit w keys dt) as Hunit.
    destruct (requested_move w keys dt) as [dx dy]. cbn [fst snd].
    intros [Hx Hy]. apply wf_dom0. split; [done|]. split; [done|].
    set_unfold.
    destruct Hunit as [H|[H|[H|[H|[H|H]]]]]; try done; injection H as -> ->; lia.
Qed.

Lemma reachable_frames_return_witness :
  exists w', underground_frame zero_stream (init_world zero_stream) key_down 16 = Ok w'.
Proof.
  apply (reachable_frames_return zero_stream (init_world zero_stream) key_down 16
           OpInventoryFrame).
  apply reachable_init.
Defined.

(** ** Consequences for play *)

(** X10: in every reachable world the actor is inside the shaft (column
    within [0, COLS), depth at least 0), stands on an Empty cell, and has
    the row below it generated. *)
Theorem actor_stays_in_open_shaft (rand : nat -> Q) (w : World) :
  reachable rand w ->
  0 <= grid_x (ug_mole w) < COLS /\
  0 <= grid_y (ug_mole w) /\
  grid_y (ug_mole w) + 1 <= highest_y_generated (terrain w) /\
  exists d, grid (terrain w) !! (grid_x (ug_mole w), grid_y (ug_mole w))
            = Some {| kind := EMPTY; durability := d |}.
Proof.
  intros Hreach. destruct (reachable_wf rand w Hreach).
  split; [done|]. split; [done|]. split; [done|].
  assert (is_Some (grid (terrain w) !! (grid_x (ug_mole w), grid_y (ug_mole w))))
    as [[k d] Hc].
  { apply wf_dom0. split; [done | lia]. }
  unfold grid_get in wf_cell0. rewrite Hc in wf_cell0. cbn in wf_cell0. subst k.
  by exists d.
Qed.

Lemma actor_stays_in_open_shaft_witness :
  0 <= grid_x (ug_mole (init_world zero_stream)) < COLS.
Proof.
  apply (actor_stays_in_open_shaft zero_stream (init_world zero_stream)).
  apply reachable_init.
Defined.

Lemma draw_tiles_elem g cam cx cy c :
  (cx, cy, c) ∈ draw_tiles g cam ↔
  (Z.max 0 (Qfloor (cam / inject_Z TILE_SIZE)) <= cy
     < Qfloor (cam / inject_Z TILE_SIZE) + ROWS + 2
   ∧ 0 <= cx < COLS ∧ c = grid_get g cx cy).
Proof.
  unfold draw_tiles. cbv zeta. rewrite py_maxZ_spec.
  set (s := Qfloor (cam / inject_Z TILE_SIZE)).
  rewrite list_elem_of_bind. split.
  - intros (cy' & Hin & Hcy). apply list_elem_of_bind in Hin as (cx' & Hin & Hcx).
    apply list_elem_of_singleton in Hin. injection Hin as -> -> ->.
    apply elem_of_seqZ in Hcy, Hcx. repeat split; lia.
  - intros (Hcy & Hcx & ->). exists cy. split.
    + apply list_elem_of_bind. exists cx. split; [by apply list_elem_of_singleton|].
      apply elem_of_seqZ. lia.
    + apply elem_of_seqZ. lia.
Qed.

(** ** Cells that were never generated, in play *)

(** The actor of [frontier_world] stands on the last generated row; in
    play the row below the actor is always generated. *)
Lemma frontier_world_unreachable (rand : nat -> Q) : ~ reachable rand frontier_world.
Proof.
  intros Hreach. pose proof (wf_ahead _ (reachable_wf rand _ Hreach)) as H.
  revert H. clear. vm_compute. intros Hle. by apply Hle.
Qed.




(** X11: in every reachable world [Terrain.draw] only reads generated
    cells: every coordinate it visits for the current camera offset is a
    key of the grid, so the [[DIRT, 1]] fallback of line 232 is never
    used, and it visits [COLS] columns of [ROWS + 2] rows. *)
Theorem draw_reads_generated_cells (rand : nat -> Q) (w : World) :
  reachable rand w ->
  (forall cx cy c,
     (cx, cy, c) ∈ draw_tiles (grid (terrain w)) (camera_y w) ->
     grid (terrain w) !! (cx, cy) = Some c) /\
  (forall cx cy,
     0 <= cx < COLS ->
     Qfloor (camera_y w / inject_Z TILE_SIZE) <= cy
       < Qfloor (camera_y w / inject_Z TILE_SIZE) + ROWS + 2 ->
     (cx, cy, grid_get (grid (terrain w)) cx cy)
       ∈ draw_tiles (grid (terrain w)) (camera_y w)).
Proof.
  intros Hreach. destruct (reachable_wf rand w Hreach).
  assert (Hs : 0 <= Qfloor (camera_y w / inject_Z TILE_SIZE)).
  { apply Qfloor_lower. change (inject_Z TILE_SIZE) with 32%Q. change (inject_Z 0) with 0%Q.
    apply Qle_shift_div_l; [done|]. lra. }
  split.
  - intros cx cy c Hin. apply draw_tiles_elem in Hin as (Hcy & Hcx & ->).
    assert (is_Some (grid (terrain w) !! (cx, cy))) as [c Hc].
    { apply wf_dom0. split; [done|]. lia. }
    unfold grid_get. by rewrite Hc.
  - intros cx cy Hcx Hcy. apply draw_tiles_elem. repeat split; try done; lia.
Qed.

Lemma draw_reads_generated_cells_witness :
  (3, 16, grid_get (grid (terrain (init_world zero_stream))) 3 16)
    ∈ draw_tiles (grid (terrain (init_world zero_stream))) (camera_y (init_world zero_stream)).
Proof.
  apply (draw_reads_generated_cells zero_stream (init_world zero_stream)
           (reachable_init zero_stream)).
  - by vm_compute.
  - by vm_compute.
Defined.

(** X12: the terrain only ever grows and is changed one cell at a time:
    across any step from a reachable world the frontier does not move
    back, the grid stays a complete block of rows, every cell other than
    the one the input aims at is kept as it is, and an Empty cell stays
    Empty (tunnels are never filled in again). *)
Theorem terrain_changes_one_cell (rand : nat -> Q) (w w' : World) (o : Op) :
  reachable rand w -> run_op rand o w = Ok w' ->
  highest_y_generated (terrain w) <= highest_y_generated (terrain w') /\
  dom_rect (grid (terrain w')) (highest_y_generated (terrain w')) /\
  (forall pos c, grid (terrain w) !! pos = Some c ->
     grid (terrain w') !! pos = Some c \/
     exists keys dt, (o = OpFrame keys dt \/ o = OpLeaveFrame keys dt) /\
                     pos = dig_target w keys dt) /\
  (forall pos c, grid (terrain w) !! pos = Some c -> kind c = EMPTY ->
     exists c', grid (terrain w') !! pos = Some c' /\ kind c' = EMPTY).
Proof.
  intros Hreach Hrun. pose proof (reachable_wf rand w Hreach) as Hwf.
  assert (Hsame : terrain w' = terrain w ->
    highest_y_generated (terrain w) <= highest_y_generated (terrain w') /\
    dom_rect (grid (terrain w')) (highest_y_generated (terrain w')) /\
    (forall pos c, grid (terrain w) !! pos = Some c ->
       grid (terrain w') !! pos = Some c \/
       exists keys dt, (o = OpFrame keys dt \/ o = OpLeaveFrame keys dt) /\
                       pos = dig_target w keys dt) /\
    (forall pos c, grid (terrain w) !! pos = Some c -> kind c = EMPTY ->
       exists c', grid (terrain w') !! pos = Some c' /\ kind c' = EMPTY)).
  { intros ->. split; [lia|]. split; [by destruct Hwf|]. split; [by left|].
    intros pos c Hc Hk. by exists c. }
  assert (Hupd : forall keys dt w2,
    underground_update rand w keys dt = Ok w2 -> terrain w' = terrain w2 ->
    (o = OpFrame keys dt \/ o = OpLeaveFrame keys dt) ->
    highest_y_generated (terrain w) <= highest_y_generated (terrain w') /\
    dom_rect (grid (terrain w')) (highest_y_generated (terrain w')) /\
    (forall pos c, grid (terrain w) !! pos = Some c ->
       grid (terrain w') !! pos = Some c \/
       exists keys dt, (o = OpFrame keys dt \/ o = OpLeaveFrame keys dt) /\
                       pos = dig_target w keys dt) /\
    (forall pos c, grid (terrain w) !! pos = Some c -> kind c = EMPTY ->
       exists c', grid (terrain w') !! pos = Some c' /\ kind c' = EMPTY)).
  { intros keys dt w2 Hup -> Ho.
    destruct (underground_update_wf rand w keys dt Hwf)
      as (w3 & Hup3 & Hwf3 & Hh & _ & _ & _ & Hkeep & Hempty & _).
    rewrite Hup in Hup3. injection Hup3 as <-.
    split; [done|]. split; [by destruct Hwf3|]. split.
    - intros pos c Hc. destruct (decide (pos = dig_target w keys dt)) as [->|Hne].
      + right. by exists keys, dt.
      + left. by apply Hkeep.
    - intros pos c Hc Hk. by apply (Hempty pos c). }
  destruct o; cbn [run_op] in Hrun.
  - unfold underground_frame in Hrun.
    destruct (underground_update rand w keys dt) as [w2|] eqn:Hup; [|done].
    cbn in Hrun. injection Hrun as <-. apply (Hupd keys dt w2); [done | done | by left].
  - apply (Hupd keys dt w'); [done | done | by right].
  - injection Hrun as <-. by apply Hsame.
  - injection Hrun as <-. by apply Hsame.
  - injection Hrun as <-. by apply Hsame.
  - injection Hrun as <-. by apply Hsame.
  - injection Hrun as <-. by apply Hsame.
Qed.

Lemma terrain_changes_one_cell_witness :
  highest_y_generated (terrain (init_world zero_stream))
  <= highest_y_generated (terrain (render_particles (init_world zero_stream))).
Proof.
  exact (proj1 (terrain_changes_one_cell zero_stream (init_world zero_stream)
                  (render_particles (init_world zero_stream)) OpInventoryFrame
                  (reachable_init _) eq_refl)).
Defined.

(** X13: the economy stays sound in every reachable world: money is
    never negative, the shovel level is at least 1 and no ore count is
    negative; a frame underground leaves money, shovel level and torch
    alone and raises at most one ore count, by exactly one. *)
Theorem economy_stays_sound (rand : nat -> Q) (w : World) (keys : Keys) (dt : Z) :
  reachable rand w ->
  0 <= money (session w) /\
  1 <= shovel_level (session w) /\
  (forall k, 0 <= ore_count (session w) k) /\
  (forall w', underground_frame rand w keys dt = Ok w' ->
     money (session w') = money (session w) /\
     shovel_level (session w') = shovel_level (session w) /\
     has_torch (session w') = has_torch (session w) /\
     (session w' = session w \/
      exists k, is_ore k = true /\
        forall k', ore_count (session w') k'
                   = ore_count (session w) k' + (if decide (k' = k) then 1 else 0))).
Proof.
  intros Hreach. pose proof (reachable_wf rand w Hreach) as Hwf.
  destruct (reachable_world_ok rand w Hreach) as (_ & Hinv & _).
  split; [by destruct Hwf|]. split; [by destruct Hwf|]. split.
  - intros k. unfold ore_count. destruct (inventory (session w) !! k) eqn:E; [|done].
    cbn. by apply (wf_counts _ Hwf k).
  - intros w' Hm. unfold underground_frame in Hm.
    destruct (underground_update_wf rand w keys dt Hwf)
      as (w2 & Hup & _ & _ & Hmoney & Hlevel & Htorch & _ & _ & Hses).
    rewrite Hup in Hm. cbn in Hm. injection Hm as <-. cbn.
    split; [done|]. split; [done|]. split; [done|].
    destruct Hses as [Hs|[k Hs]]; [by left|].
    destruct (is_ore k) eqn:Hore.
    + right. exists k. split; [done|]. intros k'. rewrite Hs.
      rewrite (credit_ore_count _ k k' Hinv). rewrite Hore.
      destruct (decide (k' = k)) as [->|Hne];
        [by rewrite decide_True | rewrite decide_False; [done | by intros [? _]]].
    + left. rewrite Hs. apply credit_ore_no_slot. by apply inventory_ok_no_slot.
Qed.

Lemma economy_stays_sound_witness :
  0 <= money (session (init_world zero_stream)).
Proof.
  exact (proj1 (economy_stays_sound zero_stream (init_world zero_stream) key_down 16
                  (reachable_init _))).
Defined.

(** X14: the sprite index [GridMole.draw] computes,
    [min(frame, len(anims[state]) - 1)], is a valid index of the state's
    frame list in every reachable world, although [frame] itself is only
    known to be 0 or 1 and the Idle list has a single sprite. *)
Theorem sprite_index_in_range (rand : nat -> Q) (w : World) :
  reachable rand w ->
  0 <= draw_frame_index (ug_mole w) < anim_len (state (ug_mole w)) /\
  0 <= frame (ug_mole w) <= 1.
Proof.
  intros Hreach. destruct (reachable_wf rand w Hreach).
  split; [|done]. unfold draw_frame_index.
  destruct (state (ug_mole w)); cbn; lia.
Qed.

Lemma sprite_index_in_range_witness :
  0 <= draw_frame_index (ug_mole (init_world zero_stream))
    < anim_len (state (ug_mole (init_world zero_stream))).
Proof.
  apply (sprite_index_in_range zero_stream (init_world zero_stream)).
  apply reachable_init.
Defined.

(** ** The shop *)

Lemma inventory_four s :
  inventory_ok s ->
  inventory s
  = <[BRONZE := ore_count s BRONZE]>
      (<[SILVER := ore_count s SILVER]>
         (<[GOLD := ore_count s GOLD]>
            (<[DIAMOND := ore_count s DIAMOND]> ∅))).
Proof.
  intros Hok. apply map_eq. intros k. unfold ore_count.
  destruct (inventory s !! k) as [n|] eqn:E.
  - assert (is_ore k = true) as Hore by (apply Hok; by eexists).
    destruct k; try done; rewrite E; cbn;
      repeat (rewrite lookup_insert_ne by done); by rewrite lookup_insert_eq.
  - destruct (is_ore k) eqn:Hore.
    + apply Hok in Hore as [n Hn]. congruence.
    + destruct k; try done;
        repeat (rewrite lookup_insert_ne by done); by rewrite lookup_empty.
Qed.

Lemma sell_all_earned b sv g d :
  map_fold (fun ore n acc => acc + n * prices ore) 0
    (<[BRONZE := b]> (<[SILVER := sv]> (<[GOLD := g]> (<[DIAMOND := d]> ∅))))
  = 10 * b + 25 * sv + 100 * g + 500 * d.
Proof.
  rewrite map_fold_insert_L; [|intros; lia|].
  2:{ repeat (rewrite lookup_insert_ne by done). apply lookup_empty. }
  rewrite map_fold_insert_L; [|intros; lia|].
  2:{ repeat (rewrite lookup_insert_ne by done). apply lookup_empty. }
  rewrite map_fold_insert_L; [|intros; lia|].
  2:{ repeat (rewrite lookup_insert_ne by done). apply lookup_empty. }
  rewrite map_fold_insert_L; [|intros; lia|apply lookup_empty].
  rewrite map_fold_empty. cbn [prices]. lia.
Qed.

(** X15: "Sell All Ores" pays 10 per Bronze, 25 per Silver, 100 per Gold
    and 500 per Diamond, sets every ore count to zero, keeps the four
    inventory slots and the shovel, and pays nothing when it is used a
    second time in a row. *)
Theorem sell_all_pays_and_empties (s : GameSession) :
  inventory_ok s ->
  money (sell_all s)
    = money s + 10 * ore_count s BRONZE + 25 * ore_count s SILVER
      + 100 * ore_count s GOLD + 500 * ore_count s DIAMOND /\
  (forall k, ore_count (sell_all s) k = 0) /\
  inventory_ok (sell_all s) /\
  shovel_level (sell_all s) = shovel_level s /\
  has_torch (sell_all s) = has_torch s /\
  sell_all (sell_all s) = sell_all s.
Proof.
  intros Hok.
  assert (Hzero : forall k, ore_count (sell_all s) k = 0).
  { intros k. unfold ore_count, sell_all. cbn. rewrite lookup_fmap.
    by destruct (inventory s !! k). }
  assert (Hok2 : inventory_ok (sell_all s)) by (by apply sell_all_inventory_ok).
  assert (Hmoney : forall s0, inventory_ok s0 ->
    money (sell_all s0)
    = money s0 + 10 * ore_count s0 BRONZE + 25 * ore_count s0 SILVER
      + 100 * ore_count s0 GOLD + 500 * ore_count s0 DIAMOND).
  { intros s0 Hok0. unfold sell_all. cbn [money].
    rewrite (inventory_four s0 Hok0) at 1. rewrite sell_all_earned. lia. }
  split; [by apply Hmoney|]. split; [done|]. split; [done|].
  split; [done|]. split; [done|].
  assert (Hm2 : money (sell_all (sell_all s)) = money (sell_all s)).
  { rewrite (Hmoney _ Hok2), !Hzero. lia. }
  assert (Hi2 : inventory (sell_all (sell_all s)) = inventory (sell_all s)).
  { unfold sell_all. cbn [inventory]. apply map_eq. intros k.
    rewrite !lookup_fmap. by destruct (inventory s !! k). }
  destruct (sell_all (sell_all s)) as [i2 m2 l2 t2] eqn:E2.
  destruct (sell_all s) as [i1 m1 l1 t1] eqn:E1.
  cbn in Hm2, Hi2. subst.
  assert (l2 = l1 /\ t2 = t1) as [-> ->]; [|done].
  unfold sell_all in E2. cbn in E2. by injection E2 as _ _ <- <-.
Qed.

Lemma sell_all_pays_and_empties_witness :
  money (sell_all GameSession_init)
  = money GameSession_init + 10 * ore_count GameSession_init BRONZE
    + 25 * ore_count GameSession_init SILVER
    + 100 * ore_count GameSession_init GOLD + 500 * ore_count GameSession_init DIAMOND.
Proof.
  apply (sell_all_pays_and_empties GameSession_init).
  apply GameSession_init_inventory_ok.
Defined.

(** X16: "Upgrade Shovel" costs [100 * level]: without that much money it
    changes nothing; with it, the price is deducted, the level goes up by
    one and the inventory is untouched. Each upgrade below level 10
    shortens the dig cooldown by exactly 20 ms; from level 10 on the
    cooldown is at its floor of 50 ms and further upgrades buy nothing. *)
Theorem buy_shovel_price_and_effect (s : GameSession) :
  1 <= shovel_level s ->
  (money s < 100 * shovel_level s -> buy_shovel s = s) /\
  (100 * shovel_level s <= money s ->
     money (buy_shovel s) = money s - 100 * shovel_level s /\
     shovel_level (buy_shovel s) = shovel_level s + 1 /\
     inventory (buy_shovel s) = inventory s /\
     has_torch (buy_shovel s) = has_torch s /\
     0 <= money (buy_shovel s)) /\
  (shovel_level s < 10 ->
     dig_cooldown (shovel_level s + 1) = dig_cooldown (shovel_level s) - 20) /\
  (10 <= shovel_level s ->
     dig_cooldown (shovel_level s) = 50 /\ dig_cooldown (shovel_level s + 1) = 50).
Proof.
  intros Hl. unfold buy_shovel, dig_cooldown. rewrite !py_maxZ_spec.
  split; [|split; [|split]].
  - intros Hm. destruct (Z_le_dec _ _); [lia | done].
  - intros Hm. destruct (Z_le_dec _ _); [cbn; repeat split; lia | lia].
  - intros Hlt. lia.
  - intros Hge. lia.
Qed.

Lemma buy_shovel_price_and_effect_witness :
  buy_shovel GameSession_init = GameSession_init.
Proof.
  apply (buy_shovel_price_and_effect GameSession_init).
  - cbn. lia.
  - cbn. lia.
Defined.

(** ** The overworld *)

Lemma ow_walk_position g m keys dt :
  (grid_x (ow_walk g m keys dt) = grid_x m ∧ grid_y (ow_walk g m keys dt) = grid_y m) ∨
  walkable (ow_tile g (grid_x (ow_walk g m keys dt)) (grid_y (ow_walk g m keys dt))).
Proof.
  unfold ow_walk.
  destruct (read_direction_position (set_timer m (can_move_timer m - dt)) keys)
    as (Hx & Hy & _).
  destruct (read_direction _ keys) as [[dx dy] m1]. cbn in Hx, Hy.
  match goal with |- context [process_animation ?m2 dt] =>
    destruct (process_animation_position m2 dt) as (-> & -> & _) end.
  destruct (decide (dx ≠ 0 ∨ dy ≠ 0)).
  - destruct (decide (walkable _)) as [Hw|Hw]; cbn; [by right | left; by rewrite Hx, Hy].
  - destruct (Z_le_dec _ _); cbn; left; by rewrite Hx, Hy.
Qed.

Lemma overworld_walkable_tiles cx cy :
  walkable (ow_tile (ow_grid overworld) cx cy) →
  ow_tile (ow_grid overworld) cx cy = "."%char ∧ 1 <= cx <= 18 ∧ 1 <= cy <= 12.
Proof.
  unfold ow_tile. destruct (ow_grid overworld !! (cx, cy)) as [t|] eqn:E; cbn.
  2:{ intros [H|H]; discriminate H. }
  intros Hw.
  assert (Hall : forallb floor_inside (map_to_list (ow_grid overworld)) = true)
    by (by vm_compute).
  rewrite forallb_forall in Hall.
  specialize (Hall (cx, cy, t)). unfold floor_inside in Hall.
  rewrite decide_True in Hall by done.
  assert (In (cx, cy, t) (map_to_list (ow_grid overworld))) as Hin.
  { apply list_elem_of_In. by apply elem_of_map_to_list. }
  apply Hall in Hin. apply andb_prop in Hin as [Hin H3]. apply andb_prop in Hin as [H1 H2].
  apply bool_decide_eq_true in H1, H2, H3. done.
Qed.

Lemma ow_run_walkable (events : list OwEvent) :
  walkable (ow_tile (ow_grid overworld) (grid_x (ow_run events)) (grid_y (ow_run events))).
Proof.
  unfold ow_run.
  assert (Hgen : forall m0,
    walkable (ow_tile (ow_grid overworld) (grid_x m0) (grid_y m0)) ->
    walkable (ow_tile (ow_grid overworld)
      (grid_x (foldl (ow_event (ow_grid overworld)) m0 events))
      (grid_y (foldl (ow_event (ow_grid overworld)) m0 events)))).
  { induction events as [|[keys dt|] events IH]; intros m0 Hm0; cbn [foldl]; [done| |].
    - apply IH. cbn [ow_event].
      destruct (ow_walk_position (ow_grid overworld) m0 keys dt) as [[-> ->]|H]; done.
    - apply IH. done. }
  apply Hgen. left. by vm_compute.
Qed.

(** X17: however the player steers, the overworld actor stands on a
    floor tile strictly inside the outer wall: it never enters a wall,
    the counter, Orpheus or the hole (the mine is entered with the button,
    not by walking into it), and never leaves the map. *)
Theorem overworld_actor_stays_on_floor (events : list OwEvent) :
  let m := ow_run events in
  ow_tile (ow_grid overworld) (grid_x m) (grid_y m) = "."%char /\
  1 <= grid_x m <= 18 /\ 1 <= grid_y m <= 12 /\
  Some (grid_x m, grid_y m) <> hole_pos overworld /\
  Some (grid_x m, grid_y m) <> orpheus_pos overworld.
Proof.
  intros m. pose proof (ow_run_walkable events) as Hw. fold m in Hw.
  destruct (overworld_walkable_tiles _ _ Hw) as (Ht & Hx & Hy).
  split; [done|]. split; [done|]. split; [done|].
  assert (hole_pos overworld = Some (8, 11)) as -> by (by vm_compute).
  assert (orpheus_pos overworld = Some (9, 5)) as -> by (by vm_compute).
  split; intros [= H1 H2]; rewrite H1, H2 in Ht; by vm_compute in Ht.
Qed.

(** ** Mode variables *)

(** Case analysis on the tests of one frame, innermost test first. *)
Ltac ui_case :=
  match goal with
  | |- context [if ?c then _ else _] =>
      lazymatch c with
      | context [show_inventory] => fail
      | _ => destruct c; cbn in *
      end
  | H : context [if ?c then _ else _] |- _ =>
      lazymatch c with
      | context [show_inventory] => fail
      | _ => destruct c; cbn in *
      end
  end.

Lemma on_escape_inv u : ui_inv u → ui_inv (on_escape u).
Proof.
  destruct u as [g s b]. unfold ui_inv, on_escape. cbn.
  intros [H1 H2]. destruct b, s; cbn; split; intros; try done; by apply H2.
Qed.

Lemma iter_escape_inv n u : ui_inv u → ui_inv (Nat.iter n on_escape u).
Proof.
  intros H. induction n as [|n IH]; [done|]. rewrite Nat.iter_succ. by apply on_escape_inv.
Qed.

Lemma iter_escape_closes n u :
  ui_inv u → (1 <= n)%nat →
  Nat.iter n on_escape u
  = {| global_state := global_state u; overworld_substate := WALK; show_inventory := false |}.
Proof.
  intros Hinv Hn. destruct n as [|n]; [lia|]. clear Hn.
  induction n as [|n IH].
  - destruct u as [g s b]. destruct Hinv as [H1 H2]. cbn in *.
    unfold on_escape. cbn. destruct b; [by rewrite H1|]. by destruct s.
  - rewrite Nat.iter_succ, IH. done.
Qed.

Lemma ui_frame_inv u i : ui_inv u → ui_inv (ui_frame u i).
Proof.
  intros Hinv. unfold ui_frame.
  pose proof (iter_escape_inv (escapes i) u Hinv) as H1.
  destruct (Nat.iter (escapes i) on_escape u) as [g s b].
  destruct H1 as [Ha Hb]. cbn in Ha, Hb.
  unfold ui_inventory, ui_pipeline, ui_inv. cbn.
  destruct b, g, s; cbn;
    try (by specialize (Ha eq_refl)); try (by specialize (Hb eq_refl));
    repeat ui_case; split; intros; done.
Qed.

Lemma ui_run_inv inputs : ui_inv (ui_run inputs).
Proof.
  unfold ui_run.
  assert (Hgen : forall u, ui_inv u -> ui_inv (foldl ui_frame u inputs)).
  { induction inputs as [|i inputs IH]; intros u Hu; cbn [foldl]; [done|].
    apply IH. by apply ui_frame_inv. }
  apply Hgen. by split.
Qed.

(** X18: the three mode variables stay consistent whatever the player
    does: the inventory overlay is only ever open in the WALK sub-state,
    and the game is only ever underground in the WALK sub-state. From such
    a state, a frame with an Escape key press and no click ends with the
    overlay closed and the sub-state WALK, without leaving the mine or the
    surface; the shop is never entered from WALK within one frame; and the
    actor changes between surface and mine only in frames that end with
    the inventory closed. *)
Theorem ui_modes_consistent (inputs : list UiInput) (i : UiInput) :
  let u := ui_run inputs in
  (show_inventory u = true -> overworld_substate u = WALK) /\
  (global_state u = UNDERGROUND -> overworld_substate u = WALK) /\
  ((1 <= escapes i)%nat -> mouse_clicked i = false ->
     ui_frame u i
     = {| global_state := global_state u; overworld_substate := WALK;
          show_inventory := false |}) /\
  (overworld_substate (ui_frame u i) = SHOP -> overworld_substate u <> WALK) /\
  (global_state (ui_frame u i) <> global_state u ->
     show_inventory (ui_frame u i) = false /\ overworld_substate (ui_frame u i) = WALK).
Proof.
  intros u. pose proof (ui_run_inv inputs) as Hinv. fold u in Hinv.
  split; [apply Hinv|]. split; [apply Hinv|]. split; [|split].
  - intros Hn Hc. unfold ui_frame. rewrite (iter_escape_closes _ _ Hinv Hn).
    unfold ui_inventory, ui_pipeline. cbn. rewrite Hc. cbn.
    destruct (global_state u); cbn; by rewrite ?andb_false_r.
  - unfold ui_frame. intros Hshop Hwalk.
    assert (He : Nat.iter (escapes i) on_escape u = u
                 ∨ Nat.iter (escapes i) on_escape u
                   = {| global_state := global_state u; overworld_substate := WALK;
                        show_inventory := false |}).
    { destruct (escapes i) as [|n]; [by left|]. right.
      apply iter_escape_closes; [done | lia]. }
    destruct u as [g s b]. cbn in *. subst s.
    destruct He as [He|He]; rewrite He in Hshop; clear He;
      unfold ui_inventory, ui_pipeline in Hshop; cbn in Hshop;
      destruct b, g; cbn in Hshop; repeat ui_case; done.
  - unfold ui_frame. intros Hg.
    pose proof (iter_escape_inv (escapes i) u Hinv) as H1.
    assert (Hgl : global_state (Nat.iter (escapes i) on_escape u) = global_state u).
    { destruct (escapes i) as [|n]; [done|].
      rewrite iter_escape_closes; [done | done | lia]. }
    destruct (Nat.iter (escapes i) on_escape u) as [g s b].
    destruct H1 as [Ha Hb]. cbn in Ha, Hb, Hgl. rewrite <- Hgl in Hg. clear Hgl.
    unfold ui_inventory, ui_pipeline in *. cbn in *.
    destruct b, g, s; cbn in *;
      try (by specialize (Ha eq_refl)); try (by specialize (Hb eq_refl));
      repeat ui_case; done.
Qed.

Lemma ui_modes_consistent_witness :
  ui_frame (ui_run [])
    {| escapes := 1; mouse_clicked := false; on_close_inv := false;
       on_inv_toggle := false; near_npc := false; on_talk := false;
       near_hole := false; on_mine := false; on_open_shop := false;
       on_close_shop := false; on_surface := false |}
  = {| global_state := global_state (ui_run []); overworld_substate := WALK;
       show_inventory := false |}.
Proof.
  apply (ui_modes_consistent []
    {| escapes := 1; mouse_clicked := false; on_close_inv := false;
       on_inv_toggle := false; near_npc := false; on_talk := false;
       near_hole := false; on_mine := false; on_open_shop := false;
       on_close_shop := false; on_surface := false |}).
  - cbn. lia.
  - reflexivity.
Defined.

(** ** Rendering helpers *)

Lemma py_int_nonneg q : (0 <= q)%Q -> py_int q = Qfloor q.
Proof.
  intros Hq. unfold py_int. destruct (Qlt_le_dec q 0); [lra | done].
Qed.

Lemma Qfloor_between (q : Q) (lo hi : Z) :
  (inject_Z lo <= q)%Q -> (q <= inject_Z hi)%Q -> lo <= Qfloor q <= hi.
Proof.
  intros Hlo Hhi. split.
  - apply Qfloor_resp_le in Hlo. by rewrite Qfloor_Z in Hlo.
  - apply Qfloor_resp_le in Hhi. by rewrite Qfloor_Z in Hhi.
Qed.

Lemma ratio_unit (r radius : Z) :
  0 < r <= radius ->
  (0 < inject_Z r / inject_Z radius /\ inject_Z r / inject_Z radius <= 1)%Q.
Proof.
  intros [Hr HR].
  assert (0 < inject_Z r)%Q by (change 0%Q with (inject_Z 0); rewrite <- Zlt_Qlt; lia).
  assert (0 < inject_Z radius)%Q by (change 0%Q with (inject_Z 0); rewrite <- Zlt_Qlt; lia).
  assert (inject_Z r <= inject_Z radius)%Q by (rewrite <- Zle_Qle; lia).
  split.
  - apply Qlt_shift_div_l; [done | lra].
  - apply Qle_shift_div_r; [done | lra].
Qed.

Lemma ratio_mono (r1 r2 radius : Z) :
  0 < radius -> r1 <= r2 ->
  (inject_Z r1 / inject_Z radius <= inject_Z r2 / inject_Z radius)%Q.
Proof.
  intros HR Hr.
  assert (0 < inject_Z radius)%Q by (change 0%Q with (inject_Z 0); rewrite <- Zlt_Qlt; lia).
  assert (inject_Z r1 <= inject_Z r2)%Q by (rewrite <- Zle_Qle; lia).
  unfold Qdiv. apply Qmult_le_compat_r; [done|].
  apply Qlt_le_weak. by apply Qinv_lt_0_compat.
Qed.

Lemma light_value_bounds (radius intensity r : Z) :
  0 < r <= radius -> 0 <= intensity ->
  light_value radius intensity r
  = Qfloor (inject_Z intensity * (1 - (inject_Z r / inject_Z radius) ^ 2)) /\
  0 <= light_value radius intensity r <= intensity.
Proof.
  intros Hr Hi. unfold light_value.
  destruct (ratio_unit r radius Hr) as [Ha0 Ha1].
  set (a := (inject_Z r / inject_Z radius)%Q) in *.
  assert (0 <= inject_Z intensity)%Q by (change 0%Q with (inject_Z 0); rewrite <- Zle_Qle; lia).
  assert (Hsq : (a ^ 2 == a * a)%Q) by (cbn; ring).
  assert (0 <= a * a)%Q by nra.
  assert (a * a <= 1)%Q by nra.
  assert (Hq0 : (0 <= inject_Z intensity * (1 - a ^ 2))%Q) by (rewrite Hsq; nra).
  assert (Hq1 : (inject_Z intensity * (1 - a ^ 2) <= inject_Z intensity)%Q)
    by (rewrite Hsq; nra).
  rewrite (py_int_nonneg _ Hq0). split; [done|].
  apply Qfloor_between; [by change (inject_Z 0) with 0%Q | done].
Qed.

Lemma light_value_antitone (radius intensity r1 r2 : Z) :
  0 < r1 -> r1 <= r2 -> r2 <= radius -> 0 <= intensity ->
  light_value radius intensity r2 <= light_value radius intensity r1.
Proof.
  intros H1 H12 H2 Hi.
  destruct (light_value_bounds radius intensity r1) as [-> _]; [lia | done |].
  destruct (light_value_bounds radius intensity r2) as [-> _]; [lia | done |].
  destruct (ratio_unit r1 radius) as [Ha0 Ha1]; [lia|].
  destruct (ratio_unit r2 radius) as [Hb0 Hb1]; [lia|].
  pose proof (ratio_mono r1 r2 radius ltac:(lia) H12) as Hab.
  set (a := (inject_Z r1 / inject_Z radius)%Q) in *.
  set (b := (inject_Z r2 / inject_Z radius)%Q) in *.
  assert (0 <= inject_Z intensity)%Q by (change 0%Q with (inject_Z 0); rewrite <- Zle_Qle; lia).
  apply Qfloor_resp_le.
  assert (Hsa : (a ^ 2 == a * a)%Q) by (cbn; ring).
  assert (Hsb : (b ^ 2 == b * b)%Q) by (cbn; ring).
  rewrite Hsa, Hsb.
  assert (a * a <= b * b)%Q by nra.
  nra.
Qed.

Lemma light_value_rim (radius intensity : Z) :
  0 < radius -> light_value radius intensity radius = 0.
Proof.
  intros HR. unfold light_value.
  assert (0 < inject_Z radius)%Q by (change 0%Q with (inject_Z 0); rewrite <- Zlt_Qlt; lia).
  assert (Hq : (inject_Z intensity * (1 - (inject_Z radius / inject_Z radius) ^ 2) == 0)%Q).
  { assert (inject_Z radius / inject_Z radius == 1)%Q as -> by (field; lra).
    cbn. ring. }
  rewrite py_int_nonneg by lra.
  rewrite Hq. done.
Qed.

Lemma create_light_mask_elem (radius intensity r v : Z) :
  (r, v) ∈ create_light_mask radius intensity <->
  v = light_value radius intensity r /\
  exists i, 0 <= i < (radius + 1) / 2 /\ r = radius - 2 * i.
Proof.
  unfold create_light_mask. rewrite list_elem_of_fmap. split.
  - intros (i & [= -> ->] & Hi). apply elem_of_seqZ in Hi. split; [done|].
    exists i. split; [lia | done].
  - intros (-> & i & Hi & ->). exists i. split; [done|]. apply elem_of_seqZ. lia.
Qed.

(** X19: for a positive radius and a non-negative intensity the light mask
    has one circle per second radius from the rim inwards, the rim circle
    is black (value 0), every circle's grey value lies between 0 and the
    intensity (so it is a valid colour byte when the intensity is at most
    255), and a smaller circle is never darker than a larger one. *)
Theorem light_mask_brightens_inwards (radius intensity : Z) :
  0 < radius -> 0 <= intensity ->
  length (create_light_mask radius intensity) = Z.to_nat ((radius + 1) / 2) /\
  head (create_light_mask radius intensity) = Some (radius, 0) /\
  (forall r v, (r, v) ∈ create_light_mask radius intensity ->
     0 < r <= radius /\ 0 <= v <= intensity /\ (intensity <= 255 -> 0 <= v <= 255)) /\
  (forall r1 v1 r2 v2,
     (r1, v1) ∈ create_light_mask radius intensity ->
     (r2, v2) ∈ create_light_mask radius intensity ->
     r1 <= r2 -> v2 <= v1).
Proof.
  intros HR Hi.
  assert (Hn : 0 < (radius + 1) / 2) by (apply Z.div_str_pos; lia).
  assert (Hrange : forall i, 0 <= i < (radius + 1) / 2 -> 0 < radius - 2 * i <= radius).
  { intros i [Hi0 Hi1].
    pose proof (Z.mul_div_le (radius + 1) 2 ltac:(lia)). lia. }
  split; [|split; [|split]].
  - unfold create_light_mask. by rewrite length_fmap, length_seqZ.
  - unfold create_light_mask. rewrite seqZ_cons by done. cbn [fmap list_fmap head].
    replace (radius - 2 * 0) with radius by lia.
    by rewrite light_value_rim.
  - intros r v Hin. apply create_light_mask_elem in Hin as (-> & i & Hib & ->).
    specialize (Hrange i Hib).
    destruct (light_value_bounds radius intensity (radius - 2 * i) Hrange Hi) as [_ Hb].
    split; [done|]. split; [done|]. lia.
  - intros r1 v1 r2 v2 H1 H2 Hle.
    apply create_light_mask_elem in H1 as (-> & i1 & Hi1 & ->).
    apply create_light_mask_elem in H2 as (-> & i2 & Hi2 & ->).
    pose proof (Hrange i1 Hi1). pose proof (Hrange i2 Hi2).
    apply light_value_antitone; lia.
Qed.

Lemma light_mask_brightens_inwards_witness :
  head (create_light_mask 150 100) = Some (150, 0).
Proof.
  apply (light_mask_brightens_inwards 150 100); lia.
Defined.

Lemma bar_width_bounds (d m : Z) :
  1 <= d < m -> m <= 12 ->
  2 <= py_int (inject_Z (TILE_SIZE - 4) * (inject_Z d / inject_Z m)) <= 27.
Proof.
  intros Hd Hm.
  assert (Hm0 : (0 < inject_Z m)%Q) by (change 0%Q with (inject_Z 0); rewrite <- Zlt_Qlt; lia).
  assert (Hd1 : (1 <= inject_Z d)%Q) by (change 1%Q with (inject_Z 1); rewrite <- Zle_Qle; lia).
  assert (Hdm : (inject_Z d + 1 <= inject_Z m)%Q).
  { change 1%Q with (inject_Z 1). rewrite <- inject_Z_plus, <- Zle_Qle. lia. }
  assert (Hm12 : (inject_Z m <= 12)%Q)
    by (change 12%Q with (inject_Z 12); rewrite <- Zle_Qle; lia).
  change (inject_Z (TILE_SIZE - 4)) with 28%Q.
  set (a := (inject_Z d / inject_Z m)%Q).
  assert (Ha : (a * inject_Z m == inject_Z d)%Q) by (unfold a; field; lra).
  assert (Hlo : (1 # 12 <= a)%Q).
  { unfold a. apply Qle_shift_div_l; [done | lra]. }
  assert (Hhi : (a <= 11 # 12)%Q).
  { unfold a. apply Qle_shift_div_r; [done | lra]. }
  rewrite py_int_nonneg by lra.
  apply Qfloor_between.
  - change (inject_Z 2) with 2%Q. lra.
  - change (inject_Z 27) with 27%Q. lra.
Qed.

(** X20: for a cell with a kind's proper durability, the durability bar is
    drawn exactly when the cell is a damaged ore: never on an empty cell,
    on Rock, on Dirt or on a cell at full durability; and when it is
    drawn, its green part is between 2 and 27 pixels wide, inside the
    28-pixel red background. *)
Theorem durability_bar_only_on_damaged_ore (c : TileCell) :
  cell_ok c ->
  (durability_bar c = None <->
     kind c = EMPTY \/ kind c = ROCK \/ kind c = DIRT
     \/ durability c = DURABILITY_get (kind c)) /\
  (forall width, durability_bar c = Some width -> 2 <= width <= TILE_SIZE - 4 - 1).
Proof.
  intros Hok. destruct c as [k d]. unfold cell_ok in Hok. unfold durability_bar.
  cbn [kind durability] in *.
  destruct (decide (k = EMPTY)) as [->|Hne].
  { split; [split; [by left | done] | done]. }
  assert (Hd : 1 <= d <= DURABILITY_get k) by (by destruct k).
  destruct (decide (k ≠ ROCK ∧ d < DURABILITY_get k)) as [[Hr Hlt]|Hn].
  - assert (k ≠ DIRT) by (intros ->; cbn in *; lia).
    split.
    + split; [done|]. intros [?|[?|[?|?]]]; try done; lia.
    + intros width [= <-]. change (TILE_SIZE - 4 - 1) with 27.
      apply bar_width_bounds; [lia|]. destruct k; cbn; try done; lia.
  - split; [|done]. split; [|done]. intros _.
    destruct (decide (k = ROCK)); [tauto|]. right; right; right.
    destruct (Z_lt_dec d (DURABILITY_get k)); [exfalso; by apply Hn | lia].
Qed.

Lemma durability_bar_only_on_damaged_ore_witness :
  2 <= 10 <= TILE_SIZE - 4 - 1.
Proof.
  apply (durability_bar_only_on_damaged_ore {| kind := GOLD; durability := 3 |}).
  - cbn. lia.
  - reflexivity.
Defined.

(** ** Loading the level *)

Lemma load_char_grid o c r ch :
  ow_grid (load_char o c r ch) = <[(c, r) := stored_char ch]> (ow_grid o).
Proof.
  unfold load_char, stored_char.
  destruct (decide (ch = "O"%char)) as [->|HO]; [done|].
  destruct (decide (ch = "H"%char)) as [->|HH]; [done|].
  destruct (decide (ch = "t"%char)) as [->|Ht].
  { cbn. by rewrite insert_insert_eq. }
  destruct (decide (ch = "S"%char)) as [->|HS].
  { cbn. by rewrite insert_insert_eq. }
  cbn. rewrite decide_False; [done|]. by intros [?|?].
Qed.

Lemma load_row_lookup (l : list Ascii.ascii) (r : Z) (n : nat) (o : Overworld) (cz rz : Z) :
  ow_grid (foldl (fun o '(c_idx, char) => load_char o (Z.of_nat c_idx) r char) o
                 (imap (fun i ch => ((n + i)%nat, ch)) l)) !! (cz, rz)
  = if decide (rz = r ∧ Z.of_nat n <= cz) then
      match l !! Z.to_nat (cz - Z.of_nat n) with
      | Some ch => Some (stored_char ch)
      | None => ow_grid o !! (cz, rz)
      end
    else ow_grid o !! (cz, rz).
Proof.
  revert n o. induction l as [|ch l IH]; intros n o.
  - cbn. by destruct (decide _).
  - rewrite imap_cons. cbn [foldl].
    rewrite (imap_ext _ (fun i ch => ((S n + i)%nat, ch))).
    2:{ intros i x _. cbn. f_equal. lia. }
    rewrite IH, load_char_grid. replace (n + 0)%nat with n by lia.
    destruct (decide (rz = r ∧ Z.of_nat (S n) <= cz)) as [[-> Hc]|Hn].
    + rewrite decide_True by (split; [done | lia]).
      replace (Z.to_nat (cz - Z.of_nat n)) with (S (Z.to_nat (cz - Z.of_nat (S n)))) by lia.
      cbn [lookup list_lookup].
      destruct (l !! _); [done|].
      rewrite lookup_insert_ne; [done|]. intros [= ?]. lia.
    + destruct (decide (rz = r ∧ Z.of_nat n <= cz)) as [[-> Hc]|Hn2].
      * assert (cz = Z.of_nat n) as -> by lia.
        replace (Z.to_nat (Z.of_nat n - Z.of_nat n)) with O by lia. cbn.
        by rewrite lookup_insert_eq.
      * rewrite lookup_insert_ne; [done|]. intros [= ? ?]. apply Hn2. split; [done | lia].
Qed.

Lemma load_row_grid (row : string) (r : Z) (o : Overworld) (cz rz : Z) :
  ow_grid (load_row o r row) !! (cz, rz)
  = if decide (rz = r ∧ 0 <= cz) then
      match String.list_ascii_of_string row !! Z.to_nat cz with
      | Some ch => Some (stored_char ch)
      | None => ow_grid o !! (cz, rz)
      end
    else ow_grid o !! (cz, rz).
Proof.
  unfold load_row.
  rewrite (imap_ext pair (fun i ch => ((0 + i)%nat, ch))) by done.
  rewrite load_row_lookup. change (Z.of_nat 0) with 0.
  by replace (cz - 0) with cz by lia.
Qed.

Lemma load_rows_lookup (rows : list string) (m : nat) (o : Overworld) (cz rz : Z) :
  ow_grid (foldl (fun o '(r_idx, row) => load_row o (Z.of_nat r_idx) row) o
                 (imap (fun i row => ((m + i)%nat, row)) rows)) !! (cz, rz)
  = if decide (Z.of_nat m <= rz ∧ 0 <= cz) then
      match rows !! Z.to_nat (rz - Z.of_nat m) with
      | Some row =>
          match String.list_ascii_of_string row !! Z.to_nat cz with
          | Some ch => Some (stored_char ch)
          | None => ow_grid o !! (cz, rz)
          end
      | None => ow_grid o !! (cz, rz)
      end
    else ow_grid o !! (cz, rz).
Proof.
  revert m o. induction rows as [|row rows IH]; intros m o.
  - cbn. by destruct (decide _).
  - rewrite imap_cons. cbn [foldl].
    rewrite (imap_ext _ (fun i row => ((S m + i)%nat, row))).
    2:{ intros i x _. cbn. f_equal. lia. }
    rewrite IH. replace (m + 0)%nat with m by lia.
    rewrite load_row_grid.
    destruct (decide (Z.of_nat (S m) <= rz ∧ 0 <= cz)) as [[Hr Hc]|Hn].
    + rewrite (decide_True (P := Z.of_nat m <= rz ∧ 0 <= cz)) by lia.
      replace (Z.to_nat (rz - Z.of_nat m)) with (S (Z.to_nat (rz - Z.of_nat (S m)))) by lia.
      cbn [lookup list_lookup].
      rewrite (decide_False (P := rz = Z.of_nat m ∧ 0 <= cz)) by lia. done.
    + destruct (decide (Z.of_nat m <= rz ∧ 0 <= cz)) as [[Hr Hc]|Hn2].
      * assert (rz = Z.of_nat m) as -> by lia.
        replace (Z.to_nat (Z.of_nat m - Z.of_nat m)) with O by lia. cbn [lookup list_lookup].
        by rewrite decide_True by done.
      * rewrite decide_False; [done|]. intros [-> ?]. apply Hn2. lia.
Qed.

(** X21: loading a level stores its text cell by cell: for every level
    text, the grid holds at column [c] of row [r] the character at that
    place of the text, with the torch and spawn markers replaced by floor,
    and holds nothing outside the text. So the grid never contains a
    [t] or an [S], and the walk test, which accepts ['.'] and ['S'],
    accepts exactly the cells that hold a floor tile. *)
Theorem load_level_stores_text (rows : list string) (cz rz : Z) :
  let g := ow_grid (load_level rows) in
  g !! (cz, rz)
    = (if decide (0 <= cz /\ 0 <= rz) then
         match rows !! Z.to_nat rz with
         | Some row => stored_char <$> (String.list_ascii_of_string row !! Z.to_nat cz)
         | None => None
         end
       else None) /\
  g !! (cz, rz) <> Some "t"%char /\
  g !! (cz, rz) <> Some "S"%char /\
  (walkable (ow_tile g cz rz) <-> g !! (cz, rz) = Some "."%char).
Proof.
  intros g.
  assert (Hg : g !! (cz, rz)
    = (if decide (0 <= cz /\ 0 <= rz) then
         match rows !! Z.to_nat rz with
         | Some row => stored_char <$> (String.list_ascii_of_string row !! Z.to_nat cz)
         | None => None
         end
       else None)).
  { subst g. unfold load_level.
    rewrite (imap_ext pair (fun i row => ((0 + i)%nat, row))) by done.
    rewrite load_rows_lookup. change (Z.of_nat 0) with 0.
    replace (rz - 0) with rz by lia. cbn [ow_grid Overworld_blank].
    rewrite lookup_empty.
    destruct (decide (0 <= rz ∧ 0 <= cz)), (decide (0 <= cz ∧ 0 <= rz)); try lia; [|done].
    destruct (rows !! Z.to_nat rz) as [row|]; [|done].
    by destruct (String.list_ascii_of_string row !! Z.to_nat cz). }
  assert (Hstored : forall ch, g !! (cz, rz) = Some ch ->
            ch <> "t"%char /\ ch <> "S"%char).
  { intros ch Hch. rewrite Hg in Hch.
    destruct (decide (0 <= cz ∧ 0 <= rz)); [|done].
    destruct (rows !! Z.to_nat rz) as [row|]; [|done].
    destruct (String.list_ascii_of_string row !! Z.to_nat cz) as [c0|]; [|done].
    cbn in Hch. injection Hch as <-. unfold stored_char.
    destruct (decide (c0 = "t"%char ∨ c0 = "S"%char)) as [_|Hn]; [done|].
    split; intros ->; apply Hn; [by left | by right]. }
  split; [done|]. split; [|split].
  - intros H. by destruct (Hstored _ H).
  - intros H. by destruct (Hstored _ H).
  - unfold ow_tile, walkable. destruct (g !! (cz, rz)) as [ch|] eqn:E; cbn.
    + split; [|by intros [= ->]; left].
      intros [->| ->]; [done|]. by destruct (Hstored _ eq_refl).
    + split; [by intros [?|?] | done].
Qed.

(** ** The two defaults of the overworld grid *)

Lemma overworld_domain (cz rz : Z) :
  is_Some (ow_grid overworld !! (cz, rz)) <-> 0 <= cz < COLS /\ 0 <= rz < ROWS - 1.
Proof.
  assert (Hin : forallb
            (fun cx => forallb (fun cy => bool_decide (is_Some (ow_grid overworld !! (cx, cy))))
                               (seqZ 0 (ROWS - 1)))
            (seqZ 0 COLS) = true) by (by vm_compute).
  assert (Hout : forallb
            (fun e : Z * Z * Ascii.ascii =>
               bool_decide (0 <= e.1.1 < COLS /\ 0 <= e.1.2 < ROWS - 1))
            (map_to_list (ow_grid overworld)) = true) by (by vm_compute).
  rewrite forallb_forall in Hin. rewrite forallb_forall in Hout.
  split.
  - intros [ch Hch].
    specialize (Hout (cz, rz, ch)).
    apply bool_decide_eq_true in Hout; [done|].
    apply list_elem_of_In. by apply elem_of_map_to_list.
  - intros [Hc Hr].
    specialize (Hin cz). rewrite forallb_forall in Hin.
    assert (In cz (seqZ 0 COLS)) as Hc' by (apply list_elem_of_In, elem_of_seqZ; lia).
    specialize (Hin Hc' rz).
    apply bool_decide_eq_true in Hin; [done|].
    apply list_elem_of_In, elem_of_seqZ. lia.
Qed.

(** X22: the overworld grid holds exactly the 20 x 14 cells of the level
    text, one row fewer than the [ROWS] the renderer walks through. In
    play the walk test only ever reads stored cells (the actor's own cell
    and its eight neighbours are all keys of the grid), so its ['W']
    default is never used; the renderer's row [ROWS - 1] has no stored
    cell at all, so its ['.'] default shows a floor row below the bottom
    wall that the walk test would treat as wall. *)
Theorem overworld_grid_defaults (events : list OwEvent) (cz rz dx dy : Z) :
  let g := ow_grid overworld in
  let m := ow_run events in
  (is_Some (g !! (cz, rz)) <-> 0 <= cz < COLS /\ 0 <= rz < ROWS - 1) /\
  (-1 <= dx <= 1 -> -1 <= dy <= 1 -> is_Some (g !! (grid_x m + dx, grid_y m + dy))) /\
  (0 <= cz < COLS ->
     ow_draw_tile g cz (ROWS - 1) = "."%char /\ ow_tile g cz (ROWS - 1) = "W"%char).
Proof.
  intros g m. split; [apply overworld_domain|]. split.
  - intros Hdx Hdy. apply overworld_domain.
    destruct (overworld_walkable_tiles _ _ (ow_run_walkable events)) as (_ & Hx & Hy).
    fold m in Hx, Hy. change COLS with 20. change (ROWS - 1) with 14. lia.
  - intros Hc.
    assert (ow_grid overworld !! (cz, ROWS - 1) = None) as Hnone.
    { apply eq_None_not_Some. rewrite overworld_domain. lia. }
    subst g. unfold ow_draw_tile, ow_tile. by rewrite Hnone.
Qed.

Lemma overworld_grid_defaults_witness :
  is_Some (ow_grid overworld !! (grid_x (ow_run []) + 1, grid_y (ow_run []) + 1)).
Proof.
  apply (overworld_grid_defaults [] 0 0 1 1); lia.
Defined.


(** ** Progress *)

Lemma frame_session (rand : nat -> Q) (w w2 : World) (keys : Keys) (dt : Z) :
  reachable rand w -> underground_update rand w keys dt = Ok w2 ->
  money (session w2) = money (session w) /\
  shovel_level (session w2) = shovel_level (session w) /\
  has_torch (session w2) = has_torch (session w) /\
  forall k, ore_count (session w) k <= ore_count (session w2) k.
Proof.
  intros Hreach Hup.
  pose proof (reachable_wf rand w Hreach) as Hwf.
  destruct (reachable_world_ok rand w Hreach) as (_ & Hinv & _).
  destruct (underground_update_wf rand w keys dt Hwf)
    as (w3 & Hup3 & _ & _ & Hmoney & Hlevel & Htorch & _ & _ & Hses).
  rewrite Hup in Hup3. injection Hup3 as <-.
  split; [done|]. split; [done|]. split; [done|].
  intros k. destruct Hses as [->|[c ->]]; [lia|].
  rewrite (credit_ore_count _ c k Hinv). destruct (decide _); lia.
Qed.

(** X23: nothing the player has gained is ever lost by playing on: across
    any step from a reachable world the shovel level does not go down and
    a torch once taken stays taken; money only goes down when a shovel
    is bought, and an ore count only goes down when the ores are sold. *)
Theorem progress_is_never_lost (rand : nat -> Q) (w w' : World) (o : Op) :
  reachable rand w -> run_op rand o w = Ok w' ->
  shovel_level (session w) <= shovel_level (session w') /\
  (has_torch (session w) = true -> has_torch (session w') = true) /\
  (o <> OpBuyShovel -> money (session w) <= money (session w')) /\
  (o <> OpSellAll -> forall k, ore_count (session w) k <= ore_count (session w') k).
Proof.
  intros Hreach Hrun.
  pose proof (reachable_wf rand w Hreach) as Hwf.
  destruct o; cbn [run_op] in Hrun.
  - unfold underground_frame in Hrun.
    destruct (underground_update rand w keys dt) as [w2|] eqn:Hup; [|done].
    cbn in Hrun. injection Hrun as <-. cbn [session render_particles].
    destruct (frame_session rand w w2 keys dt Hreach Hup) as (Hm & Hl & Ht & Hc).
    rewrite Hm, Hl, Ht. split; [lia|]. split; [done|]. split; [lia|]. by intros _.
  - destruct (frame_session rand w w' keys dt Hreach Hrun) as (Hm & Hl & Ht & Hc).
    rewrite Hm, Hl, Ht. split; [lia|]. split; [done|]. split; [lia|]. by intros _.
  - injection Hrun as <-. cbn. split; [lia|]. split; [done|]. split; [lia|]. intros _ k. lia.
  - injection Hrun as <-. cbn [session set_session].
    split; [cbn; lia|]. split; [done|]. split; [|done]. intros _.
    pose proof (sell_all_earned_nonneg (inventory (session w)) (wf_counts _ Hwf)).
    cbn. lia.
  - injection Hrun as <-. cbn [session set_session].
    unfold buy_shovel. destruct (Z_le_dec _ _); cbn.
    + split; [lia|]. split; [done|]. split; [done|]. intros _ k. unfold ore_count. cbn. lia.
    + split; [lia|]. split; [done|]. split; [done|]. intros _ k. lia.
  - injection Hrun as <-. cbn. split; [lia|]. split; [done|]. split; [lia|].
    intros _ k. unfold ore_count. cbn. lia.
  - injection Hrun as <-. cbn. split; [lia|]. split; [done|]. split; [lia|]. intros _ k. lia.
Qed.

Lemma progress_is_never_lost_witness :
  shovel_level (session (init_world zero_stream))
  <= shovel_level (session (set_session (init_world zero_stream)
                              (take_torch (session (init_world zero_stream))))).
Proof.
  exact (proj1 (progress_is_never_lost zero_stream (init_world zero_stream) _ OpTakeTorch
                  (reachable_init _) eq_refl)).
Defined.
